(** * wstunnel client: sessions, idle watchdog, UDP demultiplexing, tunnel URL

  A shallow embedding of [client.py].  The asyncio coroutines are modelled
  as labelled transition systems: every suspension point ([await]) of the
  source is a control state, and every resumption chosen by the event loop
  or by the network is an event.  Method calls made by the listeners
  ([data_received], [abort], [datagram_received], [upstream_lost]) are
  functions on the object state; a Python exception is a [Raise] result. *)

From Stdlib Require Import ZArith Lia List Bool Ascii String.
From stdpp Require Import gmap strings list.

Open Scope Z_scope.

(** ** Shared data *)

(** A client identity: the peername of a TCP connection or the source
  address of a datagram, a [(host, port)] tuple. *)
Abbreviation addr := (string * Z)%type.

(** Payloads are Python [bytes]. *)
Abbreviation bytes := (list Byte.byte).

(** The exceptions the program raises or lets through. *)
Inductive exn : Type :=
| ConnIdleTimeout (msg : addr)   (* f"Connection {client} has idled" *)
| InvalidStateError              (* Future.set_result on a done future *)
| KeyError (key : addr)          (* dict.pop of a missing key *)
| ValueError                     (* urlsplit on mismatched brackets *)
| FileNotFoundError              (* open of a missing file *)
| SSLError                       (* the ssl module on an unusable PEM file *)
| TypeError                      (* a transport handed a str instead of bytes *)
| TunnelError (msg : string).    (* any other Exception of the websocket *)

Inductive result (A : Type) : Type :=
| Ok (a : A)
| Raise (e : exn).
Arguments Ok {A} a.
Arguments Raise {A} e.

(** ** Watchdog *)

Module Watchdog.

Record t : Type := mk { timeout : Z; cnt : Z; exc : exn }.

Definition __init__ (timeout : Z) (exc : exn) : t := mk timeout 0 exc.

Definition reset (w : t) : t := mk (timeout w) 0 (exc w).

(** One iteration of the loop of [start], run when [asyncio.sleep(1)]
    returns: the counter is incremented, then compared with the threshold.
    The second component is the exception raised, if any. *)
Definition tick (w : t) : t * option exn :=
  let w' := mk (timeout w) (cnt w + 1) (exc w) in
  if cnt w' =? timeout w' then (w', Some (exc w')) else (w', None).

(** What happens to a watchdog while its activity is suspended in
    [sleep]: the second elapses, or another activity calls [reset]. *)
Inductive event : Type := Tick | Reset.

Definition step (w : t) (e : event) : t * option exn :=
  match e with
  | Tick => tick w
  | Reset => (reset w, None)
  end.

(** [start] along a schedule; the activity completes at the first raise. *)
Fixpoint start (w : t) (evs : list event) : t * option exn :=
  match evs with
  | [] => (w, None)
  | e :: evs' =>
      match step w e with
      | (w', None) => start w' evs'
      | (w', Some x) => (w', Some x)
      end
  end.

(** Specification vocabulary: the number of ticks since the last reset,
    and the presence of [n] ticks in a row somewhere in a schedule. *)
Fixpoint leading_ticks (evs : list event) : nat :=
  match evs with
  | Tick :: evs' => S (leading_ticks evs')
  | _ => O
  end.

Definition streak (evs : list event) : nat := leading_ticks (rev evs).

Definition idle_window (n : nat) (evs : list event) : Prop :=
  exists pre post, evs = pre ++ repeat Tick n ++ post.

End Watchdog.

(** ** BaseServer: one client, one tunnel connection *)

Module Session.

(** The three forwarding activities [new_client] spawns as tasks. *)
Inductive activity : Type := AWatchdog | ASender | AReceiver.

#[global] Instance activity_eq_dec : EqDecision activity.
Proof. solve_decision. Defined.

(** An asyncio task: pending, completed with an exception, pending with a
    cancellation requested by [Task.cancel()], or completed by that
    cancellation.  None of the three coroutines returns normally. *)
Inductive task_state : Type :=
| Running
| Failed (e : exn)
| CancelRequested
| Cancelled.

Definition task_done (t : task_state) : bool :=
  match t with
  | Failed _ | Cancelled => true
  | Running | CancelRequested => false
  end.

(** [Task.cancel()]: a no-op on a completed task. *)
Definition cancel (t : task_state) : task_state :=
  match t with
  | Running => CancelRequested
  | _ => t
  end.

Inductive tls_version : Type := TLSv1_2.

Record ssl_context : Type := {
  cafile : option string;
  minimum_version : tls_version;
  cert_chain : option string
}.

(** Where the [new_client] coroutine is suspended. *)
Inductive phase : Type :=
| Connecting                    (* entering [async with websockets.connect] *)
| Racing                        (* in [asyncio.wait(..., FIRST_COMPLETED)] *)
| Exiting (exc : option exn)    (* leaving the [async with] block *)
| Finished.                     (* the coroutine has returned *)

Record BaseServer : Type := mkBaseServer {
  client : addr;
  shutdown : bool;                      (* [self.shutdown.done()] *)
  que : list bytes;                     (* [self.que], oldest first *)
  (* the scheduled [new_client] coroutine: arguments, locals, position *)
  uri : string;
  ssl_param : option ssl_context;
  idle_timeout : Z;
  pc : phase;
  tasks : list (activity * task_state);
  watchdog : option Watchdog.t;
  (* local of [ws_data_sender]: the buffer whose [ws.send] is awaited *)
  in_flight : option bytes
}.

Definition set_shutdown (s : BaseServer) (b : bool) : BaseServer :=
  mkBaseServer (client s) b (que s) (uri s) (ssl_param s) (idle_timeout s)
               (pc s) (tasks s) (watchdog s) (in_flight s).
Definition set_que (s : BaseServer) (q : list bytes) : BaseServer :=
  mkBaseServer (client s) (shutdown s) q (uri s) (ssl_param s) (idle_timeout s)
               (pc s) (tasks s) (watchdog s) (in_flight s).
Definition set_pc (s : BaseServer) (p : phase) : BaseServer :=
  mkBaseServer (client s) (shutdown s) (que s) (uri s) (ssl_param s) (idle_timeout s)
               p (tasks s) (watchdog s) (in_flight s).
Definition set_tasks (s : BaseServer) (ts : list (activity * task_state)) : BaseServer :=
  mkBaseServer (client s) (shutdown s) (que s) (uri s) (ssl_param s) (idle_timeout s)
               (pc s) ts (watchdog s) (in_flight s).
Definition set_watchdog (s : BaseServer) (w : option Watchdog.t) : BaseServer :=
  mkBaseServer (client s) (shutdown s) (que s) (uri s) (ssl_param s) (idle_timeout s)
               (pc s) (tasks s) w (in_flight s).
Definition set_in_flight (s : BaseServer) (b : option bytes) : BaseServer :=
  mkBaseServer (client s) (shutdown s) (que s) (uri s) (ssl_param s) (idle_timeout s)
               (pc s) (tasks s) (watchdog s) b.

(** What a session does to the outside: the two callbacks handed to
    [__init__], the websocket, the logger, and an exception leaving a
    method towards its caller. *)
Inductive action : Type :=
| WsSend (data : bytes)
| WriteToTransport (data : bytes) (client : addr)   (* [f_write_to_transport] *)
| ConnLost (client : addr)                          (* [f_conn_lost] *)
| LogInfo (e : exn)
| LogError (e : exn)
| Raised (e : exn).

(** Python truth value of an optional path. *)
Definition truthy (o : option string) : bool :=
  match o with
  | Some s => negb (String.eqb s "")
  | None => false
  end.

(** What the [ssl] module does with the files it is given for a [wss://]
    tunnel: the exception raised by [create_default_context(cafile = ...)]
    and by [load_cert_chain(...)], if any (FileNotFoundError for a missing
    file, SSLError for one that is not PEM).  The files are taken as they
    are found, the same at every call. *)
Record ssl_module : Type := {
  create_default_context : option string -> option exn;
  load_cert_chain : string -> option exn
}.

(** The object [__init__] leaves when it returns: the attributes set, the
    [new_client] coroutine scheduled and nothing of it run yet.  The TLS
    context is kept as the data it is built from.  Whether [__init__]
    returns is [construct], below. *)
Definition __init__ (client : addr) (uri : string) (certfile client_cert : option string)
           (idle_timeout : Z) : BaseServer :=
  let ssl_param :=
    if String.prefix "wss://" uri
    then Some {| cafile := certfile;
                 minimum_version := TLSv1_2;
                 cert_chain := if truthy client_cert then client_cert else None |}
    else None in
  mkBaseServer client false [] uri ssl_param idle_timeout Connecting [] None None.

(** [BaseServer(client, ..., uri, certfile, client_cert, idle_timeout)] as
    the listeners call it.  For a [wss://] URL, [__init__] builds the TLS
    context before it schedules the coroutine, and what the [ssl] module
    raises there leaves [__init__]: no object is returned, no coroutine is
    scheduled. *)
Definition construct (ssl : ssl_module) (client : addr) (uri : string)
           (certfile client_cert : option string) (idle_timeout : Z)
  : result BaseServer :=
  if String.prefix "wss://" uri then
    match create_default_context ssl certfile with
    | Some e => Raise e
    | None =>
        if truthy client_cert then
          match load_cert_chain ssl (default ""%string client_cert) with
          | Some e => Raise e
          | None => Ok (__init__ client uri certfile client_cert idle_timeout)
          end
        else Ok (__init__ client uri certfile client_cert idle_timeout)
    end
  else Ok (__init__ client uri certfile client_cert idle_timeout).

Definition data_received (s : BaseServer) (data : bytes) : BaseServer :=
  set_que s (que s ++ [data]).

(** [abort]: [Future.set_result] raises on a future that is already done. *)
Definition abort (s : BaseServer) : result BaseServer :=
  if shutdown s then Raise InvalidStateError else Ok (set_shutdown s true).

Definition task_of (s : BaseServer) (a : activity) : option task_state :=
  snd <$> List.find (fun t => bool_decide (fst t = a)) (tasks s).

Definition set_task (s : BaseServer) (a : activity) (st : task_state) : BaseServer :=
  set_tasks s (List.map (fun t => if bool_decide (fst t = a) then (a, st) else t) (tasks s)).

Definition is_running (s : BaseServer) (a : activity) : bool :=
  match task_of s a with
  | Some Running => true
  | _ => false
  end.

(** [if watchdog: watchdog.reset()] *)
Definition reset_watchdog (s : BaseServer) : BaseServer :=
  match watchdog s with
  | Some w => set_watchdog s (Some (Watchdog.reset w))
  | None => s
  end.

(** The [except] clauses of [new_client]. *)
Definition log_exception (e : exn) : action :=
  match e with
  | ConnIdleTimeout _ => LogInfo e
  | _ => LogError e
  end.

(** The [finally] clause of [new_client]. *)
Definition finally (s : BaseServer) : BaseServer * list action :=
  let s' := set_tasks s (List.map (fun t => (fst t, cancel (snd t))) (tasks s)) in
  (set_pc s' Finished, if shutdown s then [] else [ConnLost (client s)]).

(** One of the awaitables handed to [asyncio.wait]. *)
Inductive racer : Type := RShutdown | RTask (a : activity).

(** Resumptions of the coroutines of a session, chosen by the event loop
    and the tunnel. *)
Inductive event : Type :=
| Connected                      (* the handshake succeeds *)
| ConnectFailed (e : exn)        (* the handshake raises *)
| WaitReturns (winner : racer)   (* [asyncio.wait] returns, [done.pop()] is [winner] *)
| Closed                         (* the [async with] exit completes *)
| Tick                           (* watchdog: [sleep(1)] returns *)
| SenderGet                      (* sender: [que.get()] returns, [ws.send] is called *)
| SendDone                       (* sender: [ws.send] returns *)
| SendFailed (e : exn)           (* sender: [ws.send] raises *)
| Received (msg : bytes)         (* receiver: [ws.recv()] returns a binary frame *)
| ReceivedText (msg : string)    (* receiver: [ws.recv()] returns a text frame, a str *)
| RecvFailed (e : exn)           (* receiver: [ws.recv()] raises *)
| CancelDelivered (a : activity). (* the loop throws CancelledError into a task *)

(** [new_client], from one suspension point to the next. *)
Definition new_client (s : BaseServer) (ev : event) : option (BaseServer * list action) :=
  match ev, pc s with
  | Connected, Connecting =>
      let s1 :=
        if idle_timeout s =? 0
        then set_watchdog s None
        else set_tasks
               (set_watchdog s (Some (Watchdog.__init__ (idle_timeout s)
                                                        (ConnIdleTimeout (client s)))))
               (tasks s ++ [(AWatchdog, Running)]) in
      let s2 := set_tasks s1 (tasks s1 ++ [(ASender, Running)]) in
      let s3 := set_tasks s2 (tasks s2 ++ [(AReceiver, Running)]) in
      Some (set_pc s3 Racing, [])
  | ConnectFailed e, Connecting =>
      let (s', acts) := finally s in
      Some (s', log_exception e :: acts)
  | WaitReturns RShutdown, Racing =>
      if shutdown s then Some (set_pc s (Exiting None), []) else None
  | WaitReturns (RTask a), Racing =>
      match task_of s a with
      | Some (Failed e) => Some (set_pc s (Exiting (Some e)), [])
      | _ => None
      end
  | Closed, Exiting exc =>
      let (s', acts) := finally s in
      Some (s', match exc with
                | Some e => log_exception e :: acts
                | None => acts
                end)
  | _, _ => None
  end.

(** The watchdog task: [Watchdog.start], one iteration. *)
Definition watchdog_task (s : BaseServer) : option (BaseServer * list action) :=
  match is_running s AWatchdog, watchdog s with
  | true, Some w =>
      match Watchdog.tick w with
      | (w', Some e) => Some (set_task (set_watchdog s (Some w')) AWatchdog (Failed e), [])
      | (w', None) => Some (set_watchdog s (Some w'), [])
      end
  | _, _ => None
  end.

(** [ws_data_sender], from one suspension point to the next. *)
Definition ws_data_sender (s : BaseServer) (ev : event) : option (BaseServer * list action) :=
  if is_running s ASender then
    match ev, in_flight s, que s with
    | SenderGet, None, data :: q =>
        Some (set_in_flight (set_que s q) (Some data), [WsSend data])
    | SendDone, Some _, _ =>
        Some (reset_watchdog (set_in_flight s None), [])
    | SendFailed e, Some _, _ =>
        Some (set_task (set_in_flight s None) ASender (Failed e), [])
    | _, _, _ => None
    end
  else None.

(** [ws_data_receiver], from one suspension point to the next.  Both
    listeners give a method of an asyncio transport as
    [f_write_to_transport] ([sendto], or [write] behind
    [TcpServer.write_to_transport]); it takes [bytes] and raises TypeError
    on a [str], which ends the receiver task before anything is written. *)
Definition ws_data_receiver (s : BaseServer) (ev : event) : option (BaseServer * list action) :=
  if is_running s AReceiver then
    match ev with
    | Received msg => Some (reset_watchdog s, [WriteToTransport msg (client s)])
    | ReceivedText _ => Some (set_task s AReceiver (Failed TypeError), [])
    | RecvFailed e => Some (set_task s AReceiver (Failed e), [])
    | _ => None
    end
  else None.

(** A task whose cancellation was requested completes with it when the
    loop next runs it. *)
Definition deliver_cancel (s : BaseServer) (a : activity) : option (BaseServer * list action) :=
  match task_of s a with
  | Some CancelRequested => Some (set_task s a Cancelled, [])
  | _ => None
  end.

(** [None]: the resumption is not possible in this state. *)
Definition step (s : BaseServer) (ev : event) : option (BaseServer * list action) :=
  match ev with
  | Connected | ConnectFailed _ | WaitReturns _ | Closed => new_client s ev
  | Tick => watchdog_task s
  | SenderGet | SendDone | SendFailed _ => ws_data_sender s ev
  | Received _ | ReceivedText _ | RecvFailed _ => ws_data_receiver s ev
  | CancelDelivered a => deliver_cancel s a
  end.

(** Everything that can happen to a session: the two methods its
    listener calls, and the resumptions of its coroutines. *)
Inductive input : Type :=
| DataReceived (data : bytes)
| Abort
| Resume (ev : event).

Definition react (s : BaseServer) (i : input) : BaseServer * list action :=
  match i with
  | DataReceived data => (data_received s data, [])
  | Abort =>
      match abort s with
      | Ok s' => (s', [])
      | Raise e => (s, [Raised e])
      end
  | Resume ev =>
      match step s ev with
      | Some r => r
      | None => (s, [])
      end
  end.

(** A run: the final state and everything done on the way, in order. *)
Fixpoint run (s : BaseServer) (ins : list input) : BaseServer * list action :=
  match ins with
  | [] => (s, [])
  | i :: ins' =>
      let (s1, a1) := react s i in
      let (s2, a2) := run s1 ins' in
      (s2, a1 ++ a2)
  end.

Definition sent (acts : list action) : list bytes :=
  omap (fun a => match a with WsSend d => Some d | _ => None end) acts.

Definition notified (acts : list action) : list addr :=
  omap (fun a => match a with ConnLost c => Some c | _ => None end) acts.

Definition delivered (acts : list action) : list (bytes * addr) :=
  omap (fun a => match a with WriteToTransport d c => Some (d, c) | _ => None end) acts.

Definition received (ins : list input) : list bytes :=
  omap (fun i => match i with DataReceived d => Some d | _ => None end) ins.

(** Actions that reach neither [f_conn_lost] nor a caller. *)
Definition quiet (a : action) : bool :=
  match a with
  | ConnLost _ | Raised _ => false
  | _ => true
  end.

Definition no_task_running (s : BaseServer) : Prop :=
  Forall (fun t => snd t <> Running) (tasks s).

(** Whether [abort] is called somewhere in a run. *)
Definition aborted (ins : list input) : bool :=
  existsb (fun i => match i with Abort => true | _ => false end) ins.

(** The sender taking everything out of a queue of [n] buffers. *)
Definition drain (n : nat) : list input :=
  concat (repeat [Resume SenderGet; Resume SendDone] n).

End Session.

(** ** UdpServer: sessions by source address *)

Module Udp.

(** The identity of a [BaseServer] object: its rank of creation. *)
Abbreviation oid := nat.

(** [self.args] *)
Record arguments : Type := {
  arg_uri : string;
  arg_certfile : option string;
  arg_client_cert : option string;
  arg_idle_timeout : Z
}.

(** The listener and the session objects it has created.  The dictionary
    holds references; the objects live in [sessions], by identity, and stay
    there after their entry is popped. *)
Record UdpServer : Type := mkUdpServer {
  base_servers : gmap addr oid;
  args : arguments;
  sessions : list Session.BaseServer
}.

Definition __init__ (uri : string) (certfile client_cert : option string)
           (idle_timeout : Z) : UdpServer :=
  mkUdpServer ∅ {| arg_uri := uri; arg_certfile := certfile;
                   arg_client_cert := client_cert;
                   arg_idle_timeout := idle_timeout |} [].

(** The session object a successful [BaseServer(addr, ..., *self.args)]
    returns. *)
Definition new_session (u : UdpServer) (a : addr) : Session.BaseServer :=
  Session.__init__ a (arg_uri (args u)) (arg_certfile (args u))
                   (arg_client_cert (args u)) (arg_idle_timeout (args u)).

(** A raise of the constructor leaves [datagram_received] before the
    assignment: the table is as it was. *)
Definition datagram_received (ssl : Session.ssl_module) (u : UdpServer)
           (data : bytes) (a : addr) : result UdpServer :=
  match base_servers u !! a with
  | Some o =>
      match sessions u !! o with
      | Some base =>
          Ok (mkUdpServer (base_servers u) (args u)
                          (<[o := Session.data_received base data]> (sessions u)))
      | None => Ok u
      end
  | None =>
      let o := length (sessions u) in
      match Session.construct ssl a (arg_uri (args u)) (arg_certfile (args u))
                              (arg_client_cert (args u)) (arg_idle_timeout (args u)) with
      | Ok base =>
          Ok (mkUdpServer (<[a := o]> (base_servers u)) (args u)
                          (sessions u ++ [Session.data_received base data]))
      | Raise e => Raise e
      end
  end.

(** [dict.pop] without a default raises on a missing key. *)
Definition upstream_lost (u : UdpServer) (a : addr) : result UdpServer :=
  match base_servers u !! a with
  | Some _ => Ok (mkUdpServer (delete a (base_servers u)) (args u) (sessions u))
  | None => Raise (KeyError a)
  end.

(** What the listener and its sessions do to the outside. *)
Inductive output : Type :=
| TunnelSend (o : oid) (data : bytes)   (* [ws.send] of session [o] *)
| SendTo (data : bytes) (a : addr)      (* [transport.sendto] *)
| Logged (o : oid) (e : exn)
| Uncaught (e : exn).                   (* an exception nobody handles *)

(** The callbacks a session was given, run on the listener: [f_conn_lost]
    is [self.upstream_lost], [f_write_to_transport] is
    [self.transport.sendto]. *)
Definition perform (o : oid) (u : UdpServer) (a : Session.action)
  : UdpServer * list output :=
  match a with
  | Session.ConnLost c =>
      match upstream_lost u c with
      | Ok u' => (u', [])
      | Raise e => (u, [Uncaught e])
      end
  | Session.WriteToTransport data c => (u, [SendTo data c])
  | Session.WsSend data => (u, [TunnelSend o data])
  | Session.LogInfo e | Session.LogError e => (u, [Logged o e])
  | Session.Raised e => (u, [Uncaught e])
  end.

Fixpoint perform_all (o : oid) (u : UdpServer) (acts : list Session.action)
  : UdpServer * list output :=
  match acts with
  | [] => (u, [])
  | a :: acts' =>
      let (u1, o1) := perform o u a in
      let (u2, o2) := perform_all o u1 acts' in
      (u2, o1 ++ o2)
  end.

(** A coroutine of session [o] is resumed. *)
Definition session_resumes (u : UdpServer) (o : oid) (ev : Session.event)
  : UdpServer * list output :=
  match sessions u !! o with
  | Some base =>
      match Session.step base ev with
      | Some (base', acts) =>
          perform_all o (mkUdpServer (base_servers u) (args u)
                                     (<[o := base']> (sessions u))) acts
      | None => (u, [])
      end
  | None => (u, [])
  end.

(** What happens to a listener: a datagram arrives, or the event loop
    resumes one of its sessions.  The listener never calls [abort]. *)
Inductive event : Type :=
| Datagram (data : bytes) (a : addr)
| SessionEvent (o : oid) (ev : Session.event).

(** An exception that leaves [datagram_received] reaches the event loop,
    which reports it and goes on. *)
Definition react (ssl : Session.ssl_module) (u : UdpServer) (e : event)
  : UdpServer * list output :=
  match e with
  | Datagram data a =>
      match datagram_received ssl u data a with
      | Ok u' => (u', [])
      | Raise x => (u, [Uncaught x])
      end
  | SessionEvent o ev => session_resumes u o ev
  end.

Fixpoint run (ssl : Session.ssl_module) (u : UdpServer) (evs : list event)
  : UdpServer * list output :=
  match evs with
  | [] => (u, [])
  | e :: evs' =>
      let (u1, o1) := react ssl u e in
      let (u2, o2) := run ssl u1 evs' in
      (u2, o1 ++ o2)
  end.

(** A session is live until [new_client] has returned. *)
Definition live (b : Session.BaseServer) : Prop := Session.pc b <> Session.Finished.

Definition uncaught (out : list output) : list exn :=
  omap (fun x => match x with Uncaught e => Some e | _ => None end) out.

(** The exceptions [BaseServer(...)] raises with the arguments of a
    listener. *)
Definition construction_fails (ssl : Session.ssl_module) (ar : arguments) (e : exn) : Prop :=
  exists a, Session.construct ssl a (arg_uri ar) (arg_certfile ar)
                              (arg_client_cert ar) (arg_idle_timeout ar) = Raise e.

(** The table and the live sessions are the same thing. *)
Record consistent (u : UdpServer) : Prop := {
  entry_live : forall a o, base_servers u !! a = Some o ->
    exists b, sessions u !! o = Some b /\ Session.client b = a /\ live b;
  live_entry : forall o b, sessions u !! o = Some b -> live b ->
    base_servers u !! Session.client b = Some o;
  never_aborted : forall o b, sessions u !! o = Some b -> Session.shutdown b = false
}.

End Udp.

(** ** TcpServer: one session per accepted connection *)

Module Tcp.

(** What the listener uses of an asyncio transport: the peer name it
    reports.  [write] and [close] are recorded as calls. *)
Record transport_t : Type := { peer_of : addr }.

(** What [ws.recv()] returns: [bytes] for a binary frame, [str] for a text
    frame. *)
Inductive message : Type :=
| Binary (data : bytes)
| Text (s : string).

(** Exceptions of a callback: an attribute of [None] is used, or the
    session, its constructor or the transport raises. *)
Inductive error : Type :=
| AttributeError
| SessionError (e : exn).

Inductive outcome (A : Type) : Type :=
| Done (a : A)
| Fails (e : error).
Arguments Done {A} a.
Arguments Fails {A} e.

Record TcpServer : Type := mkTcpServer {
  args : Udp.arguments;
  peername : option addr;
  base : option Session.BaseServer;
  transport : option transport_t
}.

Definition __init__ (uri : string) (certfile client_cert : option string)
           (idle_timeout : Z) : TcpServer :=
mkTcpServer {| Udp.arg_uri := uri; Udp.arg_certfile := certfile;
               Udp.arg_client_cert := client_cert;
               Udp.arg_idle_timeout := idle_timeout |} None None None.

(** [connection_made]: the peer name and the transport are stored before
    the session is constructed; when the constructor raises, the exception
    leaves the callback and [self.base] stays [None]. *)
Definition connection_made (ssl : Session.ssl_module) (s : TcpServer) (t : transport_t)
  : TcpServer * option error :=
let peername := peer_of t in
match Session.construct ssl peername (Udp.arg_uri (args s))
                        (Udp.arg_certfile (args s))
                        (Udp.arg_client_cert (args s))
                        (Udp.arg_idle_timeout (args s)) with
| Ok b => (mkTcpServer (args s) (Some peername) (Some b) (Some t), None)
| Raise e => (mkTcpServer (args s) (Some peername) (base s) (Some t),
              Some (SessionError e))
end.

Definition data_received (s : TcpServer) (data : bytes) : outcome TcpServer :=
match base s with
| Some b => Done (mkTcpServer (args s) (peername s)
                              (Some (Session.data_received b data)) (transport s))
| None => Fails AttributeError
end.

Definition connection_lost (s : TcpServer) : outcome TcpServer :=
match base s with
| Some b =>
    match Session.abort b with
    | Ok b' => Done (mkTcpServer (args s) (peername s) (Some b') (transport s))
    | Raise e => Fails (SessionError e)
    end
| None => Fails AttributeError
end.

(** What the listener and its session do to the outside. *)
Inductive output : Type :=
| Write (data : bytes)         (* [transport.write] *)
| Close                        (* [transport.close] *)
| TunnelSend (data : bytes)    (* [ws.send] *)
| Logged (e : exn)
| Uncaught (e : error).

(** [write_to_transport]: [transport.write] takes a bytes-like object and
    raises TypeError on a [str]. *)
Definition write_to_transport (s : TcpServer) (data : message) (a : addr)
  : outcome (list output) :=
match transport s, data with
| Some _, Binary d => Done [Write d]
| Some _, Text _ => Fails (SessionError TypeError)
| None, _ => Fails AttributeError
end.

Definition upstream_lost (s : TcpServer) (peername : addr) : list output :=
match transport s with
| Some _ => [Close]
| None => [Uncaught AttributeError]
end.

(** The callbacks the session was given, run on the listener.  The
    session reports the call of [f_write_to_transport] for a binary frame;
    a text frame has ended its receiver task, see
    [Session.ws_data_receiver]. *)
Definition perform (s : TcpServer) (a : Session.action) : list output :=
match a with
| Session.ConnLost c => upstream_lost s c
| Session.WriteToTransport data c =>
    match write_to_transport s (Binary data) c with
    | Done out => out
    | Fails x => [Uncaught x]
    end
| Session.WsSend data => [TunnelSend data]
| Session.LogInfo e | Session.LogError e => [Logged e]
| Session.Raised e => [Uncaught (SessionError e)]
end.

(** What happens to a listener object: the callbacks of asyncio's
    protocol, and the resumptions of its session. *)
Inductive event : Type :=
| ConnectionMade (t : transport_t)
| DataReceived (data : bytes)
| ConnectionLost
| SessionEvent (ev : Session.event).

Definition react (ssl : Session.ssl_module) (s : TcpServer) (e : event)
  : TcpServer * list output :=
match e with
| ConnectionMade t =>
    match connection_made ssl s t with
    | (s', None) => (s', [])
    | (s', Some x) => (s', [Uncaught x])
    end
| DataReceived data =>
    match data_received s data with
    | Done s' => (s', [])
    | Fails x => (s, [Uncaught x])
    end
| ConnectionLost =>
    match connection_lost s with
    | Done s' => (s', [])
    | Fails x => (s, [Uncaught x])
    end
| SessionEvent ev =>
    match base s with
    | Some b =>
        match Session.step b ev with
        | Some (b', acts) =>
            let s' := mkTcpServer (args s) (peername s) (Some b') (transport s) in
            (s', flat_map (perform s') acts)
        | None => (s, [])
        end
    | None => (s, [])
    end
end.

Fixpoint run (ssl : Session.ssl_module) (s : TcpServer) (evs : list event)
  : TcpServer * list output :=
match evs with
| [] => (s, [])
| e :: evs' =>
    let (s1, o1) := react ssl s e in
    let (s2, o2) := run ssl s1 evs' in
    (s2, o1 ++ o2)
end.

(** The order in which asyncio calls a protocol: [connection_made] once,
    first; then [data_received] any number of times; then [connection_lost]
    once, after which no callback of the protocol is called.  The session's
    coroutines are resumed at any time after [connection_made]. *)
Inductive stage : Type := Fresh | Open | Lost.

Fixpoint in_order (st : stage) (evs : list event) : bool :=
match evs with
| [] => true
| ConnectionMade _ :: evs' =>
    match st with Fresh => in_order Open evs' | _ => false end
| DataReceived _ :: evs' =>
    match st with Open => in_order Open evs' | _ => false end
| ConnectionLost :: evs' =>
    match st with Open => in_order Lost evs' | _ => false end
| SessionEvent _ :: evs' =>
    match st with Fresh => false | _ => in_order st evs' end
end.

(** The calls of [data_received] and [connection_lost]. *)
Definition is_callback (e : event) : bool :=
match e with
| DataReceived _ | ConnectionLost => true
| _ => false
end.

Definition uncaught (out : list output) : list error :=
omap (fun x => match x with Uncaught e => Some e | _ => None end) out.

Definition closes (out : list output) : nat :=
length (List.filter (fun x => match x with Close => true | _ => false end) out).

Definition tunnel_sends (out : list output) : list bytes :=
omap (fun x => match x with TunnelSend d => Some d | _ => None end) out.

Definition writes (out : list output) : list bytes :=
omap (fun x => match x with Write d => Some d | _ => None end) out.

Definition local_data (evs : list event) : list bytes :=
omap (fun e => match e with DataReceived d => Some d | _ => None end) evs.

Definition tunnel_data (evs : list event) : list bytes :=
omap (fun e => match e with
               | SessionEvent (Session.Received m) => Some m
               | _ => None
               end) evs.

(** The events of an open connection, as inputs of its session. *)
Definition as_input (e : event) : list Session.input :=
match e with
| ConnectionMade _ => []
| DataReceived d => [Session.DataReceived d]
| ConnectionLost => [Session.Abort]
| SessionEvent ev => [Session.Resume ev]
end.

End Tcp.

(** ** The password file and the tunnel URL *)

(** Python [str] values are lists of characters here (UTF-8 code units).
  [urlparse], [urlunparse] and [urlencode] are the functions of CPython's
  [urllib.parse]; they are transcribed from that module as far as
  [update_url_with_passwd] exercises them. *)
Module Url.

Abbreviation str := (list ascii).

Definition TAB : ascii := "009"%char.
Definition LF : ascii := "010"%char.
Definition CR : ascii := "013"%char.

Definition lit (s : string) : str := list_ascii_of_string s.

(** *** [get_passwd_from_file] *)

(** Text mode with the default [newline=None]: CR LF and CR read as LF. *)
Fixpoint universal_newlines (s : str) : str :=
  match s with
  | [] => []
  | c :: s' =>
      if Ascii.eqb c CR then
        match s' with
        | c' :: s'' => if Ascii.eqb c' LF then LF :: universal_newlines s''
                       else LF :: universal_newlines s'
        | [] => [LF]
        end
      else c :: universal_newlines s'
  end.

(** [fi.readline()]: up to and including the first newline. *)
Fixpoint readline (s : str) : str :=
  match s with
  | [] => []
  | c :: s' => if Ascii.eqb c LF then [c] else c :: readline s'
  end.

(** [str.lstrip]: leading characters satisfying [p] are removed. *)
Fixpoint lstrip (p : ascii -> bool) (s : str) : str :=
  match s with
  | [] => []
  | c :: s' => if p c then lstrip p s' else s
  end.

(** [str.rstrip(chars)] *)
Definition rstrip (chars : str) (s : str) : str :=
  rev (lstrip (fun c => existsb (Ascii.eqb c) chars) (rev s)).

Definition get_passwd_from_file (fs : string -> option str) (path : string)
  : result str :=
  match fs path with
  | None => Raise FileNotFoundError
  | Some content => Ok (rstrip [CR; LF] (readline (universal_newlines content)))
  end.

(** *** [urlencode] *)

Definition in_range (lo hi c : ascii) : bool :=
  (nat_of_ascii lo <=? nat_of_ascii c)%nat && (nat_of_ascii c <=? nat_of_ascii hi)%nat.

Definition is_alpha (c : ascii) : bool := in_range "a" "z" c || in_range "A" "Z" c.
Definition is_digit (c : ascii) : bool := in_range "0" "9" c.

(** [_ALWAYS_SAFE]: letters, digits and [_.-~]. *)
Definition always_safe (c : ascii) : bool :=
  is_alpha c || is_digit c || existsb (Ascii.eqb c) (lit "_.-~").

Definition hex_digit (n : nat) : ascii := nth n (lit "0123456789ABCDEF") "0"%char.

(** [quote_plus] with [safe='']: a space becomes [+], a byte that is not
    always safe becomes [%XX]. *)
Definition quote_char (c : ascii) : str :=
  if Ascii.eqb c " " then ["+"%char]
  else if always_safe c then [c]
  else ["%"%char; hex_digit (nat_of_ascii c / 16); hex_digit (nat_of_ascii c mod 16)].

Definition quote_plus (s : str) : str := flat_map quote_char s.

(** [urlencode] of a dictionary of strings: [k=v] joined by [&]. *)
Fixpoint urlencode (query : list (str * str)) : str :=
  match query with
  | [] => []
  | [(k, v)] => quote_plus k ++ "="%char :: quote_plus v
  | (k, v) :: rest => quote_plus k ++ "="%char :: quote_plus v ++ "&"%char :: urlencode rest
  end.

(** *** [urlparse] *)

Record ParseResult : Type := mkParseResult {
  scheme : str;
  netloc : str;
  path : str;
  params : str;
  query : str;
  fragment : str
}.

(** [url._replace(query = q)] *)
Definition replace_query (p : ParseResult) (q : str) : ParseResult :=
  mkParseResult (scheme p) (netloc p) (path p) (params p) q (fragment p).

(** The part before the first character satisfying [p], and the rest,
    which starts at that character or is empty. *)
Fixpoint break_at (p : ascii -> bool) (s : str) : str * str :=
  match s with
  | [] => ([], [])
  | c :: s' => if p c then ([], s) else let (a, b) := break_at p s' in (c :: a, b)
  end.

(** [if c in s: a, b = s.split(c, 1)] *)
Definition split_once (c : ascii) (s : str) : str * str :=
  match break_at (Ascii.eqb c) s with
  | (a, _ :: b) => (a, b)
  | (a, []) => (a, [])
  end.

Definition contains (c : ascii) (s : str) : bool := existsb (Ascii.eqb c) s.

Definition lower (c : ascii) : ascii :=
  if in_range "A" "Z" c then ascii_of_nat (nat_of_ascii c + 32) else c.

(** [scheme_chars]: letters, digits and [+-.]. *)
Definition is_scheme_char (c : ascii) : bool :=
  is_alpha c || is_digit c || existsb (Ascii.eqb c) (lit "+-.").

(** [_WHATWG_C0_CONTROL_OR_SPACE] *)
Definition is_c0_or_space (c : ascii) : bool := (nat_of_ascii c <=? 32)%nat.

(** [_UNSAFE_URL_BYTES_TO_REMOVE] *)
Definition is_unsafe (c : ascii) : bool :=
  Ascii.eqb c TAB || Ascii.eqb c CR || Ascii.eqb c LF.

Definition str_eqb (a b : str) : bool :=
  String.eqb (string_of_list_ascii a) (string_of_list_ascii b).

Definition uses_params : list str :=
  List.map lit [""; "ftp"; "hdl"; "prospero"; "http"; "imap"; "https"; "shttp";
                "rtsp"; "rtspu"; "sip"; "sips"; "mms"; "sftp"; "tel"]%string.

Definition uses_netloc : list str :=
  List.map lit [""; "ftp"; "http"; "gopher"; "nntp"; "telnet"; "imap"; "wais";
                "file"; "mms"; "https"; "shttp"; "snews"; "prospero"; "rtsp";
                "rtspu"; "rsync"; "svn"; "svn+ssh"; "sftp"; "nfs"; "git";
                "git+ssh"; "ws"; "wss"]%string.

Definition member (s : str) (l : list str) : bool := existsb (str_eqb s) l.

(** The scheme, when the text before the first colon is one. *)
Definition split_scheme (url : str) : str * str :=
  match break_at (Ascii.eqb ":") url with
  | (c :: pre, _ :: rest) =>
      if is_alpha c && forallb is_scheme_char (c :: pre)
      then (List.map lower (c :: pre), rest)
      else ([], url)
  | _ => ([], url)
  end.

(** [_splitnetloc(url, 2)] after a leading [//]. *)
Definition split_netloc (url : str) : str * str :=
  match url with
  | "/"%char :: "/"%char :: rest =>
      break_at (fun c => existsb (Ascii.eqb c) (lit "/?#")) rest
  | _ => ([], url)
  end.

Definition brackets_mismatch (netloc : str) : bool :=
  (contains "[" netloc && negb (contains "]" netloc))
  || (contains "]" netloc && negb (contains "[" netloc)).

(** [_splitparams] *)
Definition split_params (url : str) : str * str :=
  if contains "/" url then
    let (tail, head) := break_at (Ascii.eqb "/") (rev url) in
    (* [tail] is the last segment reversed, [head] the rest up to the last slash *)
    if contains ";" (rev tail)
    then let (a, b) := split_once ";" (rev tail) in (rev head ++ a, b)
    else (url, [])
  else split_once ";" url.

(** What [urlsplit] takes from other modules: the NFKC normal form of
    [unicodedata], and the check of a netloc that has both brackets
    ([_check_bracketed_netloc]; in earlier releases [_check_bracketed_host]
    on the text between the brackets, which asks [ipaddress]; constantly
    true before the check was introduced). *)
Record library : Type := {
  nfkc : str -> str;
  check_bracketed_netloc : str -> bool
}.

(** [str.isascii], on the UTF-8 code units. *)
Definition is_ascii (s : str) : bool :=
  forallb (fun c => (nat_of_ascii c <? 128)%nat) s.

(** [_checknetloc]: [false] where it raises ValueError.  A netloc that
    is not ASCII must not produce one of [/?#@:] by NFKC normalisation. *)
Definition checknetloc (lib : library) (netloc : str) : bool :=
  match netloc with
  | [] => true
  | _ =>
      if is_ascii netloc then true else
      let n := List.filter (fun c => negb (existsb (Ascii.eqb c) (lit "@:#?"))) netloc in
      let netloc2 := nfkc lib n in
      if str_eqb n netloc2 then true
      else negb (existsb (fun c => contains c netloc2) (lit "/?#@:"))
  end.

Definition urlparse (lib : library) (url : str) : result ParseResult :=
  let url := lstrip is_c0_or_space url in
  let url := List.filter (fun c => negb (is_unsafe c)) url in
  let (scheme, url) := split_scheme url in
  let (netloc, url) := split_netloc url in
  if brackets_mismatch netloc then Raise ValueError else
  if contains "[" netloc && contains "]" netloc
     && negb (check_bracketed_netloc lib netloc)
  then Raise ValueError else
  let (url, fragment) := split_once "#" url in
  let (url, query) := split_once "?" url in
  if negb (checknetloc lib netloc) then Raise ValueError else
  let (url, params) :=
    if member scheme uses_params && contains ";" url
    then split_params url else (url, []) in
  Ok (mkParseResult scheme netloc url params query fragment).

Definition nonempty (s : str) : bool := match s with [] => false | _ => true end.

Definition starts_with (pre s : str) : bool := str_eqb (firstn (length pre) s) pre.

Definition urlunparse (p : ParseResult) : str :=
  let url := if nonempty (params p) then path p ++ ";"%char :: params p else path p in
  let url :=
    if nonempty (netloc p)
       || (nonempty (scheme p) && member (scheme p) uses_netloc
           && negb (starts_with (lit "//") url))
    then
      let url := if nonempty url && negb (starts_with (lit "/") url)
                 then "/"%char :: url else url in
      lit "//" ++ netloc p ++ url
    else url in
  let url := if nonempty (scheme p) then scheme p ++ ":"%char :: url else url in
  let url := if nonempty (query p) then url ++ "?"%char :: query p else url in
  if nonempty (fragment p) then url ++ "#"%char :: fragment p else url.

(** *** [update_url_with_passwd] *)

Definition update_url_with_passwd (lib : library) (url passwd : str) : result str :=
  match urlparse lib url with
  | Ok p => Ok (urlunparse (replace_query p (urlencode [(lit "t", passwd)])))
  | Raise e => Raise e
  end.

(** *** Specification vocabulary *)

(** A URL written out from its parts: [scheme://netloc path ?query #fragment],
    the last two optional. *)
Definition opt_part (c : ascii) (o : option str) : str :=
  match o with
  | Some s => c :: s
  | None => []
  end.

Definition compose (scheme netloc path : str) (q f : option str) : str :=
  scheme ++ lit "://" ++ netloc ++ path ++ opt_part "?" q ++ opt_part "#" f.

Definition free_of (bad : str) (s : str) : Prop :=
  Forall (fun c => existsb (Ascii.eqb c) bad = false) s.

Definition unsafe : str := [TAB; CR; LF].

(** The characters [quote_plus] writes. *)
Definition quoted_char (c : ascii) : bool :=
  always_safe c || existsb (Ascii.eqb c) (lit "+%").

(** The parts of a [ws://] or [wss://] URL that reads back as these
    parts: a host, a path that is empty or absolute, no delimiter of a
    later part inside an earlier one, no tab or line break, and a netloc
    the checks of [urlsplit] let through: brackets in pairs and accepted (an
    IPv6 literal), no delimiter hidden behind NFKC normalisation. *)
Record well_formed (lib : library) (scheme netloc path : str) (q f : option str) : Prop := {
  wf_scheme : scheme = lit "ws" \/ scheme = lit "wss";
  wf_host : netloc <> [];
  wf_netloc : free_of (lit "/?#" ++ unsafe) netloc;
  wf_brackets : brackets_mismatch netloc = false;
  wf_bracketed : contains "[" netloc = true -> check_bracketed_netloc lib netloc = true;
  wf_unicode : checknetloc lib netloc = true;
  wf_absolute : path = [] \/ exists p, path = "/"%char :: p;
  wf_path : free_of (lit "?#" ++ unsafe) path;
  wf_query : forall s, q = Some s -> free_of ("#"%char :: unsafe) s;
  wf_fragment : forall s, f = Some s -> s <> [] /\ free_of unsafe s
}.

End Url.

(** ** Further vocabulary *)

Module SessionSpec.

(** The messages the tunnel hands to the receiver in a run. *)
Definition tunnel_messages (ins : list Session.input) : list bytes :=
omap (fun i => match i with
               | Session.Resume (Session.Received m) => Some m
               | _ => None
               end) ins.

(** What the session writes to its log. *)
Definition logged (acts : list Session.action) : list Session.action :=
List.filter (fun a => match a with
                      | Session.LogInfo _ | Session.LogError _ => true
                      | _ => false
                      end) acts.

(** The exceptions that leave the session's methods. *)
Definition raised (acts : list Session.action) : list exn :=
omap (fun a => match a with Session.Raised e => Some e | _ => None end) acts.

End SessionSpec.

(** A machine for the examples: the CA bundle [ca.pem] is there and loads;
    no other file does. *)
Module Examples.

Definition ssl : Session.ssl_module :=
{| Session.create_default_context := fun f =>
     match f with
     | Some "ca.pem"%string => None
     | _ => Some FileNotFoundError
     end;
   Session.load_cert_chain := fun _ => Some FileNotFoundError |}.

(** A library for the examples: normalisation leaves the text as it is,
    and [[::1]] is the bracketed host it accepts. *)
Definition lib : Url.library :=
{| Url.nfkc := fun s => s;
   Url.check_bracketed_netloc := fun nl =>
     Url.str_eqb (firstn 5 nl) (Url.lit "[::1]") |}.

(** The host [ex_mple.com] with U+2100 (the sign a/c, three UTF-8 code
    units) in the place of the blank, and a library whose normalisation
    spells that sign out. *)
Definition host_with_account_sign : Url.str :=
Url.lit "ex" ++ [ascii_of_nat 226; ascii_of_nat 132; ascii_of_nat 128] ++ Url.lit "mple.com".

Definition spelling_lib : Url.library :=
{| Url.nfkc := fun s =>
     if Url.str_eqb s host_with_account_sign then Url.lit "exa/cmple.com" else s;
   Url.check_bracketed_netloc := fun _ => true |}.

End Examples.

Module UdpSpec.

(** The payloads of the datagrams that arrive from one address. *)
Definition datagrams_from (a : addr) (evs : list Udp.event) : list bytes :=
omap (fun e => match e with
               | Udp.Datagram data a' => if decide (a' = a) then Some data else None
               | _ => None
               end) evs.

(** The messages one session sends into its tunnel. *)
Definition tunnel_sends (o : nat) (out : list Udp.output) : list bytes :=
omap (fun x => match x with
               | Udp.TunnelSend o' data => if decide (o' = o) then Some data else None
               | _ => None
               end) out.

(** The addresses the listener sends datagrams to. *)
Definition sent_to (out : list Udp.output) : list addr :=
omap (fun x => match x with Udp.SendTo _ a => Some a | _ => None end) out.

(** The addresses datagrams arrive from. *)
Definition sources (evs : list Udp.event) : list addr :=
omap (fun e => match e with Udp.Datagram _ a => Some a | _ => None end) evs.

End UdpSpec.

Module UrlSpec.
Import Url.

(** The value of a hexadecimal digit. *)
Definition hex_value (c : ascii) : nat :=
if is_digit c then nat_of_ascii c - 48
else if in_range "A" "F" c then nat_of_ascii c - 55
else if in_range "a" "f" c then nat_of_ascii c - 87
else 0.

(** The decoding that undoes [quote_plus]: [+] is a space, [%XX] a byte. *)
Fixpoint unquote_plus (s : str) : str :=
match s with
| [] => []
| c :: s' =>
    if Ascii.eqb c "+" then " "%char :: unquote_plus s'
    else if Ascii.eqb c "%" then
      match s' with
      | h :: l :: s'' => ascii_of_nat (16 * hex_value h + hex_value l) :: unquote_plus s''
      | _ => c :: unquote_plus s'
      end
    else c :: unquote_plus s'
end.

(** The characters that separate the parts of a URL or of a query, and
    white space. *)
Definition delimiters : str := lit "&=#?/;:@ " ++ unsafe.

End UrlSpec.

(** ** main: the listen address, the tunnel URL, the kind of listener *)

Module Main.
Import Url.

(** Exceptions of [main] before it starts to serve. *)
Inductive error : Type :=
| IndexError                (* [local_addr[1]] without a second element *)
| Exn (e : exn).

Inductive outcome (A : Type) : Type :=
| Done (a : A)
| Fails (e : error).
Arguments Done {A} a.
Arguments Fails {A} e.

Fixpoint is_prefix (pre s : str) : bool :=
match pre, s with
| [], _ => true
| c :: pre', d :: s' => Ascii.eqb c d && is_prefix pre' s'
| _ :: _, [] => false
end.

(** [s.split(sep, maxsplit=1)] for a non-empty [sep]: the text before the
    first occurrence of [sep] and the text after it, or [s] alone. *)
Fixpoint split1 (sep s : str) : str * option str :=
match s with
| [] => ([], None)
| c :: s' =>
    if is_prefix sep s then ([], Some (skipn (length sep) s))
    else let (a, b) := split1 sep s' in (c :: a, b)
end.

(** [sep in s], for a non-empty [sep]. *)
Fixpoint occurs (sep s : str) : bool :=
match s with
| [] => false
| _ :: s' => is_prefix sep s || occurs sep s'
end.

Inductive kind : Type := UdpListener | TcpListener.

(** What [main] goes on to serve. *)
Record plan : Type := {
  listener : kind;
  local_addr : str * Z;
  listener_args : Udp.arguments;
  warned : bool               (* 'Secure connection is disabled' *)
}.

Definition truthy (o : option string) : bool :=
match o with
| Some s => negb (String.eqb s "")
| None => false
end.

(** [main] up to the creation of the endpoint.  [int] is Python's [int] on
    a string ([None]: ValueError); [fs] is the file system; [lib] is what
    [urlparse] takes from the library. *)
Definition main (lib : library) (int : str -> option Z) (fs : string -> option str)
           (listen uri : str) (passwd_file certfile client_cert : option string)
           (idle_timeout : Z) : outcome plan :=
match split1 (lit "://") listen with
| (_, None) => Fails (Exn ValueError)
| (protocol, Some local_addr) =>
    match split1 (lit ":") local_addr with
    | (_, None) => Fails IndexError
    | (host, Some port) =>
        match int port with
        | None => Fails (Exn ValueError)
        | Some p =>
            let uri' :=
              if truthy passwd_file then
                match get_passwd_from_file fs (default ""%string passwd_file) with
                | Ok passwd => update_url_with_passwd lib uri passwd
                | Raise e => Raise e
                end
              else Ok uri in
            match uri' with
            | Raise e => Fails (Exn e)
            | Ok uri =>
                Done {| listener := if str_eqb protocol (lit "udp")
                                    then UdpListener else TcpListener;
                        local_addr := (host, p);
                        listener_args :=
                          {| Udp.arg_uri := string_of_list_ascii uri;
                             Udp.arg_certfile := certfile;
                             Udp.arg_client_cert := client_cert;
                             Udp.arg_idle_timeout := idle_timeout |};
                        warned := negb (is_prefix (lit "wss://") uri) |}
            end
        end
    end
end.

End Main.

(** * Theorems *)

(** ** Watchdog *)

Section WatchdogFacts.
Import Watchdog.

Lemma start_snoc w evs e :
  start w (evs ++ [e]) =
  match start w evs with
  | (w', None) => step w' e
  | r => r
  end.
Proof.
  revert w; induction evs as [|e' evs IH]; intros w; simpl.
  - destruct (step w e) as [w' [x|]]; reflexivity.
  - destruct (step w e') as [w' [x|]]; [reflexivity | apply IH].
Qed.

Lemma leading_ticks_repeat n l :
  leading_ticks (repeat Tick n ++ l) = (n + leading_ticks l)%nat.
Proof. induction n as [|n IH]; simpl; [reflexivity | now rewrite IH]. Qed.

Lemma streak_snoc_tick evs : streak (evs ++ [Tick]) = S (streak evs).
Proof. unfold streak. now rewrite rev_app_distr. Qed.

Lemma streak_snoc_reset evs : streak (evs ++ [Reset]) = O.
Proof. unfold streak. now rewrite rev_app_distr. Qed.

Lemma rev_repeat_tick n : rev (repeat Tick n) = repeat Tick n.
Proof.
  induction n as [|n IH]; simpl; [reflexivity|].
  rewrite IH. change [Tick] with (repeat Tick 1).
  rewrite <- repeat_app. now replace (n + 1)%nat with (S n) by lia.
Qed.

Lemma suffix_le_streak pre n : (n <= streak (pre ++ repeat Tick n))%nat.
Proof.
  unfold streak. rewrite rev_app_distr, rev_repeat_tick, leading_ticks_repeat. lia.
Qed.

Lemma leading_ticks_split l :
  exists post, l = repeat Tick (leading_ticks l) ++ post.
Proof.
  induction l as [|[|] l [post IH]]; simpl.
  - now exists [].
  - exists post. now rewrite <- IH.
  - now exists (Reset :: l).
Qed.

Lemma streak_suffix evs : exists pre, evs = pre ++ repeat Tick (streak evs).
Proof.
  unfold streak. destruct (leading_ticks_split (rev evs)) as [post H].
  exists (rev post). rewrite <- (rev_involutive evs), H at 1.
  now rewrite rev_app_distr, rev_repeat_tick.
Qed.

Lemma idle_window_snoc n evs e :
  idle_window n (evs ++ [e]) ->
  idle_window n evs \/ (n <= streak (evs ++ [e]))%nat.
Proof.
  intros (pre & post & H).
  induction post as [|x post' _] using rev_ind.
  - right. rewrite H, app_nil_r. apply suffix_le_streak.
  - left. exists pre, post'.
    rewrite !app_assoc in H. apply app_inj_tail in H as [H _].
    now rewrite <- app_assoc in H.
Qed.

Lemma idle_window_app n evs post : idle_window n evs -> idle_window n (evs ++ post).
Proof.
  intros (pre & post' & ->). exists pre, (post' ++ post).
  now rewrite <- !app_assoc.
Qed.

(** The invariant of [start] on a fresh watchdog with a positive threshold. *)
Lemma start_invariant N e evs :
  0 < N ->
  match start (__init__ N e) evs with
  | (w, None) =>
      timeout w = N /\ exc w = e /\ cnt w = Z.of_nat (streak evs) /\ cnt w < N /\
      ~ idle_window (Z.to_nat N) evs
  | (w, Some x) => x = e /\ cnt w = N /\ idle_window (Z.to_nat N) evs
  end.
Proof.
  intros HN. induction evs as [|ev evs IH] using rev_ind.
  - simpl. repeat split; try lia.
    intros (pre & post & H). symmetry in H.
    apply app_eq_nil in H as [_ H]. apply app_eq_nil in H as [H _].
    destruct (Z.to_nat N) eqn:E; [lia | discriminate].
  - rewrite start_snoc.
    destruct (start (__init__ N e) evs) as [w [x|]].
    + destruct IH as (-> & Hc & Hw). repeat split; auto using idle_window_app.
    + destruct IH as (Ht & He & Hc & Hlt & Hnw).
      destruct ev; simpl.
      * unfold tick; simpl. rewrite Ht.
        destruct (Z.eqb_spec (cnt w + 1) N) as [Heq|Hne]; simpl.
        -- repeat split; auto.
           destruct (streak_suffix (evs ++ [Tick])) as [pre Hpre].
           exists pre, []. rewrite app_nil_r.
           rewrite streak_snoc_tick in Hpre.
           replace (Z.to_nat N) with (S (streak evs)) by lia. exact Hpre.
        -- rewrite streak_snoc_tick. repeat split; auto; try lia.
           intros Hw. apply idle_window_snoc in Hw as [Hw|Hw]; [now apply Hnw|].
           rewrite streak_snoc_tick in Hw. lia.
      * rewrite streak_snoc_reset. repeat split; auto; try lia.
        intros Hw. apply idle_window_snoc in Hw as [Hw|Hw]; [now apply Hnw|].
        rewrite streak_snoc_reset in Hw. lia.
Qed.

(** C6. For a positive threshold [N] the watchdog counts one per tick,
    [reset] puts the counter back to zero, and along any schedule of ticks
    and resets the activity completes with the idle failure exactly when
    the schedule contains [N] ticks in a row; until then the counter is the
    number of ticks since the last reset, below [N]. *)
Theorem watchdog_idle_failure_after_N_ticks (N : Z) (e : exn) (evs : list event) :
  0 < N ->
  (forall w, cnt (fst (tick w)) = cnt w + 1) /\
  (forall w, snd (tick w) <> None <-> cnt w + 1 = timeout w) /\
  (forall w, cnt (reset w) = 0 /\ timeout (reset w) = timeout w) /\
  (snd (start (__init__ N e) evs) = Some e <-> idle_window (Z.to_nat N) evs) /\
  (snd (start (__init__ N e) evs) = None ->
     cnt (fst (start (__init__ N e) evs)) = Z.of_nat (streak evs) /\
     cnt (fst (start (__init__ N e) evs)) < N) /\
  (forall x, snd (start (__init__ N e) evs) = Some x ->
     x = e /\ cnt (fst (start (__init__ N e) evs)) = N).
Proof.
  intros HN. pose proof (start_invariant N e evs HN) as H.
  split; [intros w; unfold tick; simpl; now destruct (_ =? _)|].
  split.
  { intros w. unfold tick; simpl.
    destruct (Z.eqb_spec (cnt w + 1) (timeout w)); simpl; split; congruence. }
  split; [now intros w|].
  destruct (start (__init__ N e) evs) as [w [x|]]; simpl.
  - destruct H as (-> & Hc & Hw). repeat split; auto; intros; congruence.
  - destruct H as (_ & _ & Hc & Hlt & Hnw).
    repeat split; auto; try discriminate. intros Hw. now apply Hnw in Hw.
Qed.

Lemma watchdog_idle_failure_after_N_ticks_witness :
  snd (start (__init__ 2 (ConnIdleTimeout ("10.0.0.1"%string, 5353)))
         [Tick; Reset; Tick; Tick; Tick]) =
    Some (ConnIdleTimeout ("10.0.0.1"%string, 5353))
  <-> idle_window 2 [Tick; Reset; Tick; Tick; Tick].
Proof.
  apply (watchdog_idle_failure_after_N_ticks 2
           (ConnIdleTimeout ("10.0.0.1"%string, 5353))
           [Tick; Reset; Tick; Tick; Tick]).
  lia.
Defined.

End WatchdogFacts.

(** ** Session *)

Section SessionFacts.
Import Session.

Lemma run_app s ins1 ins2 :
  run s (ins1 ++ ins2) =
  (fst (run (fst (run s ins1)) ins2),
   snd (run s ins1) ++ snd (run (fst (run s ins1)) ins2)).
Proof.
  revert s; induction ins1 as [|i ins1 IH]; intros s; simpl.
  - now destruct (run s ins2).
  - destruct (react s i) as [s1 a1]. rewrite IH.
    destruct (run s1 ins1) as [s2 a2]; simpl.
    destruct (run s2 ins2) as [s3 a3]; simpl. now rewrite app_assoc.
Qed.

Lemma run_cons s i ins :
  run s (i :: ins) =
  (fst (run (fst (react s i)) ins), snd (react s i) ++ snd (run (fst (react s i)) ins)).
Proof. simpl. destruct (react s i) as [s1 a1]; simpl. now destruct (run s1 ins). Qed.

Lemma notified_app a b : notified (a ++ b) = notified a ++ notified b.
Proof. apply omap_app. Qed.

Lemma sent_app a b : sent (a ++ b) = sent a ++ sent b.
Proof. apply omap_app. Qed.

(** Unfolds one reaction and splits on everything it inspects. *)
Ltac react_cases :=
  unfold react, abort, data_received, step, new_client, watchdog_task,
    ws_data_sender, ws_data_receiver, deliver_cancel, finally,
    reset_watchdog, set_task, log_exception in *;
  repeat (case_match; simplify_eq /=); auto.

Lemma react_client s i : client (fst (react s i)) = client s.
Proof. react_cases. Qed.

Lemma react_shutdown_stays s i :
  shutdown s = true -> shutdown (fst (react s i)) = true.
Proof. intros H. react_cases. Qed.

Lemma react_shutdown_silent s i :
  shutdown s = true -> notified (snd (react s i)) = [].
Proof. intros H. react_cases; congruence. Qed.

Lemma react_finished_stays s i :
  pc s = Finished -> pc (fst (react s i)) = Finished.
Proof. intros H. react_cases; congruence. Qed.

Lemma react_finished_silent s i :
  pc s = Finished -> notified (snd (react s i)) = [].
Proof. intros H. react_cases; congruence. Qed.

Lemma react_unfinished_silent s i :
  pc (fst (react s i)) <> Finished -> notified (snd (react s i)) = [].
Proof. intros H. react_cases; simpl in *; congruence. Qed.

Lemma react_finishing s i :
  pc s <> Finished -> pc (fst (react s i)) = Finished ->
  notified (snd (react s i)) = if shutdown s then [] else [client s].
Proof. intros H1 H2. react_cases; simpl in *; congruence. Qed.

Lemma run_client s ins : client (fst (run s ins)) = client s.
Proof.
  revert s; induction ins as [|i ins IH]; intros s; [reflexivity|].
  rewrite run_cons; simpl. now rewrite IH, react_client.
Qed.

Lemma run_shutdown_stays s ins :
  shutdown s = true -> shutdown (fst (run s ins)) = true.
Proof.
  revert s; induction ins as [|i ins IH]; intros s H; [exact H|].
  rewrite run_cons; simpl. now apply IH, react_shutdown_stays.
Qed.

Lemma run_shutdown_silent s ins :
  shutdown s = true -> notified (snd (run s ins)) = [].
Proof.
  revert s; induction ins as [|i ins IH]; intros s H; [reflexivity|].
  rewrite run_cons; simpl. rewrite notified_app, react_shutdown_silent by exact H.
  now apply IH, react_shutdown_stays.
Qed.

Lemma run_finished_stays s ins :
  pc s = Finished -> pc (fst (run s ins)) = Finished.
Proof.
  revert s; induction ins as [|i ins IH]; intros s H; [exact H|].
  rewrite run_cons; simpl. now apply IH, react_finished_stays.
Qed.

Lemma run_finished_silent s ins :
  pc s = Finished -> notified (snd (run s ins)) = [].
Proof.
  revert s; induction ins as [|i ins IH]; intros s H; [reflexivity|].
  rewrite run_cons; simpl. rewrite notified_app, react_finished_silent by exact H.
  now apply IH, react_finished_stays.
Qed.

Lemma run_unfinished_silent s ins :
  pc (fst (run s ins)) <> Finished -> notified (snd (run s ins)) = [].
Proof.
  revert s; induction ins as [|i ins IH]; intros s H; [reflexivity|].
  rewrite run_cons in *; simpl in *. rewrite notified_app, IH by exact H.
  rewrite react_unfinished_silent; [reflexivity|].
  intros Hf. apply H. now apply run_finished_stays.
Qed.

Lemma react_abort_sets s : shutdown (fst (react s Abort)) = true.
Proof. react_cases. Qed.

Lemma react_shutdown_only_abort s i :
  i <> Abort -> shutdown (fst (react s i)) = shutdown s.
Proof. intros H. react_cases. Qed.

(** The signal is set exactly when [abort] has been called. *)
Lemma run_shutdown_iff_aborted s ins :
  shutdown s = false -> shutdown (fst (run s ins)) = aborted ins.
Proof.
  revert s; induction ins as [|i ins IH]; intros s H; [exact H|].
  rewrite run_cons; cbn [fst].
  destruct i as [d| |ev].
  - change (aborted (DataReceived d :: ins)) with (aborted ins).
    apply IH. now rewrite react_shutdown_only_abort.
  - change (aborted (Abort :: ins)) with true.
    apply run_shutdown_stays, react_abort_sets.
  - change (aborted (Resume ev :: ins)) with (aborted ins).
    apply IH. now rewrite react_shutdown_only_abort.
Qed.

(** C1, as the code has it.  The first [abort] on a session sets the
    shutdown signal; a second [abort] raises InvalidStateError and leaves
    the session as it was.  The signal, once set, stays set along every
    run, and from the first [abort] on, whatever is called afterwards and
    however often, the session never invokes the "ended" notification. *)
Theorem abort_sets_once_then_raises (s : BaseServer) (post : list input) :
  shutdown s = false ->
  abort s = Ok (set_shutdown s true) /\
  abort (set_shutdown s true) = Raise InvalidStateError /\
  react (set_shutdown s true) Abort = (set_shutdown s true, [Raised InvalidStateError]) /\
  shutdown (fst (run s (Abort :: post))) = true /\
  notified (snd (run s (Abort :: post))) = [].
Proof.
  intros H. rewrite run_cons. cbn [fst snd].
  split; [unfold abort; now rewrite H|].
  split; [reflexivity|]. split; [reflexivity|]. split.
  - apply run_shutdown_stays, react_abort_sets.
  - rewrite notified_app.
    rewrite run_shutdown_silent by apply react_abort_sets.
    unfold react, abort. now rewrite H.
Qed.

Lemma abort_sets_once_then_raises_witness :
  abort (set_shutdown (__init__ ("192.0.2.7"%string, 40000) "ws://gw.example/t"
                                None None 120) true)
  = Raise InvalidStateError.
Proof.
  apply (abort_sets_once_then_raises
           (__init__ ("192.0.2.7"%string, 40000) "ws://gw.example/t" None None 120)
           [Abort]).
  reflexivity.
Defined.

(** C1, as the claim has it, fails: the second of two [abort] calls on a
    fresh session raises. *)
Lemma abort_twice_fails :
  let s0 := __init__ ("192.0.2.7"%string, 40000) "ws://gw.example/t" None None 120 in
  exists s1, abort s0 = Ok s1 /\ abort s1 = Raise InvalidStateError /\
             snd (run s0 [Abort; Abort]) = [Raised InvalidStateError].
Proof. eexists. repeat split. Qed.

(** C2, as the code has it.  Take any run of a session from its
    construction and look at the step that ends it ([new_client] returns).
    Over the whole run, also after the end, the "ended" notification is
    invoked exactly once, with the session's client, when [abort] was not
    called before that step, and not at all when it was, whatever made the
    session end.  A failing handshake is such a step. *)
Theorem ended_notified_once_unless_aborted
  (client : addr) (uri : string) (certfile client_cert : option string)
  (idle_timeout : Z) (pre : list input) (fin : input) (post : list input) :
  let s0 := __init__ client uri certfile client_cert idle_timeout in
  pc (fst (run s0 pre)) <> Finished ->
  pc (fst (run s0 (pre ++ [fin]))) = Finished ->
  notified (snd (run s0 (pre ++ fin :: post))) =
    (if aborted pre then [] else [client]) /\
  (forall e, pc (fst (run s0 pre)) = Connecting ->
             pc (fst (run s0 (pre ++ [Resume (ConnectFailed e)]))) = Finished).
Proof.
  intros s0 Hpre Hfin. split.
  - rewrite run_app, run_cons in *. cbn [fst snd] in *.
    rewrite !notified_app.
    rewrite run_unfinished_silent by exact Hpre.
    rewrite (run_finished_silent _ post) by exact Hfin.
    rewrite react_finishing by assumption.
    rewrite run_shutdown_iff_aborted by reflexivity.
    rewrite run_client. simpl. now rewrite app_nil_r.
  - intros e Hc. rewrite run_app. cbn [fst].
    rewrite run_cons. cbn [fst run]. unfold react, step, new_client.
    rewrite Hc. reflexivity.
Qed.

Lemma ended_notified_once_unless_aborted_witness :
  notified (snd (run (__init__ ("192.0.2.7"%string, 40000) "ws://gw.example/t"
                               None None 120)
                     ([DataReceived [Byte.x68]]
                        ++ Resume (ConnectFailed (TunnelError "refused"))
                        :: [DataReceived [Byte.x69]; Abort])))
  = [("192.0.2.7"%string, 40000)] /\
  notified (snd (run (__init__ ("192.0.2.7"%string, 40000) "ws://gw.example/t"
                               None None 120)
                     ([Resume Connected; Abort; Resume (WaitReturns RShutdown)]
                        ++ Resume Closed :: [Resume (CancelDelivered ASender)])))
  = [].
Proof.
  split.
  - apply (ended_notified_once_unless_aborted
             ("192.0.2.7"%string, 40000) "ws://gw.example/t" None None 120
             [DataReceived [Byte.x68]]
             (Resume (ConnectFailed (TunnelError "refused")))
             [DataReceived [Byte.x69]; Abort]).
    + simpl. discriminate.
    + reflexivity.
  - apply (ended_notified_once_unless_aborted
             ("192.0.2.7"%string, 40000) "ws://gw.example/t" None None 120
             [Resume Connected; Abort; Resume (WaitReturns RShutdown)]
             (Resume Closed)
             [Resume (CancelDelivered ASender)]).
    + simpl. discriminate.
    + reflexivity.
Defined.

(** C2, as the claim has it, fails: a session whose race is ended by a
    tunnel error, and on which [abort] is called while the tunnel context is
    being left, logs the error and notifies nobody; so does a session aborted
    while its handshake is pending, when the handshake then fails. *)
Lemma session_ended_by_error_is_not_notified_after_abort :
let s0 := __init__ ("192.0.2.7"%string, 40000) "ws://gw.example/t" None None 120 in
let pre := [Resume Connected; Resume (RecvFailed (TunnelError "reset"));
            Resume (WaitReturns (RTask AReceiver))] in
pc (fst (run s0 pre)) = Exiting (Some (TunnelError "reset")) /\
shutdown (fst (run s0 pre)) = false /\
pc (fst (run s0 (pre ++ [Abort; Resume Closed]))) = Finished /\
snd (run s0 (pre ++ [Abort; Resume Closed])) = [LogError (TunnelError "reset")] /\
notified (snd (run s0 (pre ++ [Abort; Resume Closed]))) = [] /\
snd (run s0 [Abort; Resume (ConnectFailed (TunnelError "refused"))])
  = [LogError (TunnelError "refused")].
Proof. repeat split. Qed.

(** *** The queue between [data_received] and [ws_data_sender] *)

Lemma react_fifo s i :
  sent (snd (react s i)) ++ que (fst (react s i)) = que s ++ received [i].
Proof. react_cases; simpl; now rewrite ?app_nil_r. Qed.

Lemma received_cons i ins : received (i :: ins) = received [i] ++ received ins.
Proof. change (i :: ins) with ([i] ++ ins). apply omap_app. Qed.

Lemma run_fifo s ins :
  sent (snd (run s ins)) ++ que (fst (run s ins)) = que s ++ received ins.
Proof.
  revert s; induction ins as [|i ins IH]; intros s.
  - simpl. now rewrite app_nil_r.
  - rewrite run_cons, received_cons. cbn [fst snd].
    rewrite sent_app, <- app_assoc, IH, !app_assoc. f_equal. apply react_fifo.
Qed.

Lemma received_drain n : received (drain n) = [].
Proof. induction n as [|n IH]; [reflexivity | exact IH]. Qed.

Lemma received_map_data bs : received (List.map DataReceived bs) = bs.
Proof. induction bs as [|b bs IH]; [reflexivity | simpl; now rewrite IH]. Qed.

Lemma sender_get s d q :
  is_running s ASender = true -> in_flight s = None -> que s = d :: q ->
  react s (Resume SenderGet) = (set_in_flight (set_que s q) (Some d), [WsSend d]).
Proof. intros H1 H2 H3. unfold react, step, ws_data_sender. now rewrite H1, H2, H3. Qed.

Lemma sender_done s d :
  is_running s ASender = true -> in_flight s = Some d ->
  react s (Resume SendDone) = (reset_watchdog (set_in_flight s None), []).
Proof. intros H1 H2. unfold react, step, ws_data_sender. now rewrite H1, H2. Qed.

Lemma reset_watchdog_que s : que (reset_watchdog s) = que s.
Proof. unfold reset_watchdog. now destruct (watchdog s). Qed.

Lemma reset_watchdog_in_flight s : in_flight (reset_watchdog s) = in_flight s.
Proof. unfold reset_watchdog. now destruct (watchdog s). Qed.

Lemma reset_watchdog_running s a : is_running (reset_watchdog s) a = is_running s a.
Proof. unfold reset_watchdog. now destruct (watchdog s). Qed.

(** With the sender running and idle, as many rounds as there are buffers
    empty the queue. *)
Lemma drain_empties n : forall s,
  is_running s ASender = true -> in_flight s = None -> length (que s) = n ->
  que (fst (run s (drain n))) = [].
Proof.
  induction n as [|n IH]; intros s Hr Hf Hl.
  - simpl. now apply length_zero_iff_nil.
  - destruct (que s) as [|d q] eqn:Hq; [discriminate|].
    change (drain (S n)) with (Resume SenderGet :: Resume SendDone :: drain n).
    rewrite run_cons, (sender_get s d q) by assumption. cbn [fst].
    rewrite run_cons, (sender_done _ d) by (first [exact Hr | reflexivity]).
    cbn [fst]. apply IH.
    + rewrite reset_watchdog_running. exact Hr.
    + now rewrite reset_watchdog_in_flight.
    + rewrite reset_watchdog_que. simpl in *. lia.
Qed.

(** A pending [ws.send] completes first, if there is one. *)
Lemma finish_send s :
  is_running s ASender = true ->
  let s' := fst (react s (Resume SendDone)) in
  is_running s' ASender = true /\ in_flight s' = None /\ que s' = que s.
Proof.
  intros Hr. unfold react, step, ws_data_sender. rewrite Hr.
  destruct (in_flight s) as [d|] eqn:Hf; simpl.
  - now rewrite reset_watchdog_running, reset_watchdog_in_flight, reset_watchdog_que.
  - destruct (que s); auto.
Qed.

Lemma drain_sends_all s :
  is_running s ASender = true ->
  sent (snd (run s (Resume SendDone :: drain (length (que s))))) = que s /\
  que (fst (run s (Resume SendDone :: drain (length (que s))))) = [].
Proof.
  intros Hr. destruct (finish_send s Hr) as (Hr' & Hf' & Hq').
  assert (He : que (fst (run s (Resume SendDone :: drain (length (que s))))) = []).
  { rewrite run_cons. cbn [fst]. rewrite <- Hq'. now apply drain_empties. }
  split; [|exact He].
  pose proof (run_fifo s (Resume SendDone :: drain (length (que s)))) as H.
  rewrite He, app_nil_r in H. rewrite H.
  rewrite received_cons, received_drain. simpl. now rewrite app_nil_r.
Qed.

(** C3.  Along any run of a session, the buffers handed to [ws.send]
    followed by the buffers still queued are the buffers passed to
    [data_received], in order; and whenever the sender activity is running,
    letting it take the queue empty has it send exactly those buffers: as
    many messages as buffers, the same contents, the same order. *)
Theorem sender_forwards_buffers_in_order
  (client : addr) (uri : string) (certfile client_cert : option string)
  (idle_timeout : Z) (ins : list input) :
  let s0 := __init__ client uri certfile client_cert idle_timeout in
  let s := fst (run s0 ins) in
  let rest := Resume SendDone :: drain (length (que s)) in
  is_running s ASender = true ->
  sent (snd (run s0 ins)) ++ que s = received ins /\
  sent (snd (run s0 (ins ++ rest))) = received ins /\
  length (sent (snd (run s0 (ins ++ rest)))) = length (received ins) /\
  que (fst (run s0 (ins ++ rest))) = [].
Proof.
  intros s0 s rest Hr.
  assert (H1 : sent (snd (run s0 ins)) ++ que s = received ins)
    by apply (run_fifo s0 ins).
  destruct (drain_sends_all s Hr) as [H2 H3].
  assert (H4 : sent (snd (run s0 (ins ++ rest))) = received ins).
  { rewrite run_app. cbn [snd]. rewrite sent_app. fold s. fold rest.
    unfold rest at 1. now rewrite H2. }
  repeat split; auto.
  - now rewrite H4.
  - rewrite run_app. cbn [fst]. exact H3.
Qed.

Lemma sender_forwards_buffers_in_order_witness :
  sent (snd (run (__init__ ("192.0.2.7"%string, 40000) "ws://gw.example/t" None None 120)
                 ([DataReceived [Byte.x01]; Resume Connected;
                   DataReceived [Byte.x02]; Resume SenderGet;
                   DataReceived [Byte.x03]]
                    ++ Resume SendDone :: drain 2)))
  = [[Byte.x01]; [Byte.x02]; [Byte.x03]].
Proof.
  apply (sender_forwards_buffers_in_order
           ("192.0.2.7"%string, 40000) "ws://gw.example/t" None None 120
           [DataReceived [Byte.x01]; Resume Connected;
            DataReceived [Byte.x02]; Resume SenderGet;
            DataReceived [Byte.x03]]).
  reflexivity.
Defined.

Lemma run_data_only s bs :
  run s (List.map DataReceived bs) = (set_que s (que s ++ bs), []).
Proof.
  revert s; induction bs as [|b bs IH]; intros s.
  - simpl. rewrite app_nil_r. now destruct s.
  - simpl. rewrite IH. unfold data_received, set_que; simpl.
    now rewrite <- app_assoc.
Qed.

(** C5.  [__init__] runs nothing of the handshake: it returns a session
    whose [new_client] is only scheduled, with no task and an empty queue.
    Buffers passed to [data_received] while the handshake is pending are
    all kept, in order, nothing being sent; once the connection is made the
    sender sends exactly these buffers. *)
Theorem buffers_before_connection_are_kept_and_sent
  (client : addr) (uri : string) (certfile client_cert : option string)
  (idle_timeout : Z) (bs : list bytes) :
  let s0 := __init__ client uri certfile client_cert idle_timeout in
  let r1 := run s0 (List.map DataReceived bs) in
  (pc s0 = Connecting /\ tasks s0 = [] /\ que s0 = []) /\
  (pc (fst r1) = Connecting /\ que (fst r1) = bs /\ snd r1 = []) /\
  (pc (fst (run (fst r1) [Resume Connected])) = Racing /\
   que (fst (run (fst r1) [Resume Connected])) = bs) /\
  sent (snd (run s0 (List.map DataReceived bs
                       ++ Resume Connected :: drain (length bs)))) = bs.
Proof.
  intros s0 r1. subst r1. rewrite run_data_only. cbn [fst snd].
  split; [now repeat split|]. split; [now repeat split|].
  split.
  { unfold run, react, step, new_client; simpl.
    destruct (idle_timeout =? 0); now split. }
  rewrite run_app, run_data_only. cbn [fst snd]. rewrite run_cons.
  cbn [fst snd sent omap app].
  set (s1 := fst (react _ (Resume Connected))).
  assert (H1 : que s1 = bs /\ in_flight s1 = None /\ is_running s1 ASender = true).
  { subst s1. unfold react, step, new_client, is_running, task_of. simpl.
    now destruct (idle_timeout =? 0). }
  destruct H1 as (Hq & Hf & Hr).
  pose proof (run_fifo s1 (drain (length bs))) as H.
  rewrite (drain_empties (length bs) s1) in H by (auto; now rewrite Hq).
  rewrite app_nil_r, received_drain, app_nil_r, Hq in H. exact H.
Qed.

(** *** The end of the race *)

Lemma no_task_running_is_running s a :
  no_task_running s -> is_running s a = false.
Proof.
  unfold no_task_running, is_running, task_of. intros H.
  destruct (List.find _ (tasks s)) as [[a' t]|] eqn:Hf; [|reflexivity].
  apply find_some in Hf as [Hin _]. apply list_elem_of_In in Hin.
  rewrite Forall_forall in H. specialize (H _ Hin). simpl in *.
  now destruct t.
Qed.

Lemma cancel_all_quiet ts :
  Forall (fun t : activity * task_state => snd t <> Running)
         (List.map (fun t => (fst t, cancel (snd t))) ts).
Proof.
  induction ts as [|[a t] ts IH]; constructor; [|exact IH].
  simpl. now destruct t.
Qed.

Lemma set_task_quiet ts a st :
  st <> Running ->
  Forall (fun t : activity * task_state => snd t <> Running) ts ->
  Forall (fun t : activity * task_state => snd t <> Running)
         (List.map (fun t => if bool_decide (fst t = a) then (a, st) else t) ts).
Proof.
  intros Hst H. induction H as [|t ts Ht _ IH]; constructor; [|exact IH].
  now destruct (bool_decide (fst t = a)).
Qed.

Lemma react_finishing_cancels s i :
  pc s <> Finished -> pc (fst (react s i)) = Finished ->
  tasks (fst (react s i)) = List.map (fun t => (fst t, cancel (snd t))) (tasks s).
Proof. intros H1 H2. react_cases; simpl in *; congruence. Qed.

(** A finished session whose tasks are all cancelled or failed stays so,
    and neither sends to the tunnel nor writes to the local transport. *)
Lemma react_quiet s i :
  pc s = Finished -> no_task_running s ->
  no_task_running (fst (react s i)) /\
  sent (snd (react s i)) = [] /\ delivered (snd (react s i)) = [].
Proof.
  intros Hpc Hq.
  pose proof (no_task_running_is_running s AWatchdog Hq) as Hw.
  pose proof (no_task_running_is_running s ASender Hq) as Hs.
  pose proof (no_task_running_is_running s AReceiver Hq) as Hr.
  destruct i as [d| |ev]; [now repeat split | |].
  - unfold react, abort. now destruct (shutdown s).
  - unfold react, step, new_client, watchdog_task, ws_data_sender, ws_data_receiver,
      deliver_cancel.
    destruct ev as [|e|[|a]| | | | |e|m|m|e|a]; rewrite ?Hpc, ?Hw, ?Hs, ?Hr;
      try (now repeat split).
    destruct (task_of s a) as [[]|]; try (now repeat split).
    split; [|now split]. unfold no_task_running, set_task; simpl.
    now apply set_task_quiet.
Qed.

Lemma run_quiet s ins :
  pc s = Finished -> no_task_running s ->
  no_task_running (fst (run s ins)) /\
  sent (snd (run s ins)) = [] /\ delivered (snd (run s ins)) = [].
Proof.
  revert s; induction ins as [|i ins IH]; intros s Hpc Hq; [now repeat split|].
  rewrite run_cons. cbn [fst snd].
  destruct (react_quiet s i Hpc Hq) as (H1 & H2 & H3).
  destruct (IH _ (react_finished_stays s i Hpc) H1) as (H4 & H5 & H6).
  unfold delivered in *. rewrite sent_app, omap_app, H2, H3, H5, H6. now repeat split.
Qed.

(** C9, as the code has it.  The step that ends a session calls [cancel]
    on every task of the session, so that none is left running: each has
    failed, or has its cancellation requested.  From then on no task of
    the session runs again, nothing is sent to the tunnel and nothing is
    written to the local transport.  (The cancellations complete when the
    event loop next runs the tasks; the session does not wait for that.) *)
Theorem session_end_requests_cancellation
  (client : addr) (uri : string) (certfile client_cert : option string)
  (idle_timeout : Z) (pre : list input) (fin : input) (post : list input) :
  let s0 := __init__ client uri certfile client_cert idle_timeout in
  let s := fst (run s0 pre) in
  let s' := fst (run s0 (pre ++ [fin])) in
  pc s <> Finished -> pc s' = Finished ->
  tasks s' = List.map (fun t => (fst t, cancel (snd t))) (tasks s) /\
  (forall a, is_running s' a = false) /\
  (forall a, is_running (fst (run s' post)) a = false) /\
  sent (snd (run s' post)) = [] /\
  delivered (snd (run s' post)) = [].
Proof.
  intros s0 s s' Hpre Hfin. subst s s'.
  rewrite run_app in *. cbn [fst] in *.
  set (s := fst (run s0 pre)) in *.
  rewrite run_cons in *. cbn [fst run] in *.
  pose proof (react_finishing_cancels s fin Hpre Hfin) as Ht.
  assert (Hq : no_task_running (fst (react s fin))).
  { unfold no_task_running. rewrite Ht. apply cancel_all_quiet. }
  destruct (run_quiet _ post Hfin Hq) as (H1 & H2 & H3).
  repeat split; auto using no_task_running_is_running.
Qed.

Lemma session_end_requests_cancellation_witness :
  tasks (fst (run (__init__ ("192.0.2.7"%string, 40000) "ws://gw.example/t" None None 120)
                  ([Resume Connected; Resume (RecvFailed (TunnelError "closed"));
                    Resume (WaitReturns (RTask AReceiver))] ++ [Resume Closed])))
  = List.map (fun t => (fst t, cancel (snd t)))
      (tasks (fst (run (__init__ ("192.0.2.7"%string, 40000) "ws://gw.example/t"
                                 None None 120)
                       [Resume Connected; Resume (RecvFailed (TunnelError "closed"));
                        Resume (WaitReturns (RTask AReceiver))]))).
Proof.
  apply (session_end_requests_cancellation
           ("192.0.2.7"%string, 40000) "ws://gw.example/t" None None 120
           [Resume Connected; Resume (RecvFailed (TunnelError "closed"));
            Resume (WaitReturns (RTask AReceiver))]
           (Resume Closed) []).
  - simpl. discriminate.
  - reflexivity.
Defined.

(** C9, as the claim has it, fails: when the receiver loses the race
    against nothing but a tunnel error, the session finishes while the
    sender and the watchdog are still pending, their cancellation only
    requested. *)
Lemma session_ends_before_cancellation_completes :
  let s := fst (run (__init__ ("192.0.2.7"%string, 40000) "ws://gw.example/t"
                              None None 120)
                    [Resume Connected; Resume (RecvFailed (TunnelError "closed"));
                     Resume (WaitReturns (RTask AReceiver)); Resume Closed]) in
  pc s = Finished /\
  task_of s ASender = Some CancelRequested /\
  task_of s AWatchdog = Some CancelRequested /\
  task_done CancelRequested = false.
Proof. repeat split. Qed.

(** *** What one resumption does to the listener *)

(** On a session that was never aborted, a resumption either calls
    nothing but the websocket, the logger and the transport, or it is the
    end of the session and calls [f_conn_lost] last. *)
Lemma step_shape s ev s' acts :
  shutdown s = false -> step s ev = Some (s', acts) ->
  client s' = client s /\ shutdown s' = false /\
  exists l, forallb quiet l = true /\
    ((acts = l /\ (pc s' = Finished -> pc s = Finished)) \/
     (acts = l ++ [ConnLost (client s)] /\ pc s <> Finished /\ pc s' = Finished)).
Proof.
  intros Hs H.
  unfold step, new_client, watchdog_task, ws_data_sender, ws_data_receiver,
    deliver_cancel, finally, reset_watchdog, set_task, log_exception in H.
  repeat (case_match; simplify_eq /=); repeat split; auto;
    first
      [ eexists; split; [|left; split; [reflexivity | simpl; congruence]]; reflexivity
      | exists []; split; [reflexivity | right; repeat split; congruence]
      | eexists [_]; split; [|right; split; [reflexivity | split; congruence]];
        reflexivity ].
Qed.

End SessionFacts.

(** ** UdpServer *)

Section UdpFacts.
Import Udp.

Lemma step_finished_stays s ev s' acts :
  Session.step s ev = Some (s', acts) ->
  Session.pc s = Session.Finished -> Session.pc s' = Session.Finished.
Proof.
  intros H Hpc. pose proof (react_finished_stays s (Session.Resume ev) Hpc) as H'.
  unfold Session.react in H'. now rewrite H in H'.
Qed.

Lemma perform_all_app o u l1 l2 :
  perform_all o u (l1 ++ l2) =
  (fst (perform_all o (fst (perform_all o u l1)) l2),
   snd (perform_all o u l1) ++ snd (perform_all o (fst (perform_all o u l1)) l2)).
Proof.
  revert u; induction l1 as [|a l1 IH]; intros u; simpl.
  - now destruct (perform_all o u l2).
  - destruct (perform o u a) as [u1 o1]. rewrite IH.
    destruct (perform_all o u1 l1) as [u2 o2]; simpl.
    destruct (perform_all o u2 l2) as [u3 o3]; simpl. now rewrite app_assoc.
Qed.

Lemma perform_all_quiet o u l :
  forallb Session.quiet l = true ->
  fst (perform_all o u l) = u /\ uncaught (snd (perform_all o u l)) = [].
Proof.
  induction l as [|a l IH]; intros H; [now split|].
  simpl in H. apply andb_prop in H as [Ha Hl]. destruct (IH Hl) as [H1 H2].
  simpl. destruct a; try discriminate; simpl;
    destruct (perform_all o u l) as [u2 o2]; simpl in *; now split.
Qed.

Lemma uncaught_app a b : uncaught (a ++ b) = uncaught a ++ uncaught b.
Proof. apply omap_app. Qed.

Lemma upstream_lost_present u a o :
  base_servers u !! a = Some o ->
  upstream_lost u a = Ok (mkUdpServer (delete a (base_servers u)) (args u) (sessions u)).
Proof. unfold upstream_lost. now intros ->. Qed.

(** A resumption of a session either leaves the table alone, or ends the
    session and pops its entry, which is there. *)
Lemma session_resumes_spec u o b ev b' acts :
  consistent u -> sessions u !! o = Some b ->
  Session.step b ev = Some (b', acts) ->
  exists outs, uncaught outs = [] /\
    Session.client b' = Session.client b /\ Session.shutdown b' = false /\
    (((live b' <-> live b) /\
      session_resumes u o ev =
        (mkUdpServer (base_servers u) (args u) (<[o := b']> (sessions u)), outs))
     \/
     (live b /\ ~ live b' /\ base_servers u !! Session.client b = Some o /\
      session_resumes u o ev =
        (mkUdpServer (delete (Session.client b) (base_servers u)) (args u)
                     (<[o := b']> (sessions u)), outs))).
Proof.
  intros Hc Hb Hstep. unfold session_resumes. rewrite Hb, Hstep.
  destruct (step_shape b ev b' acts (never_aborted u Hc o b Hb) Hstep)
    as (Hcl & Hsh & l & Hq & [[-> Hpc] | (-> & Hl & Hf)]).
  - set (u1 := mkUdpServer _ _ _).
    destruct (perform_all_quiet o u1 l Hq) as [H1 H2].
    exists (snd (perform_all o u1 l)). repeat split; auto.
    left. split.
    + unfold live. split.
      * intros Hl Hfin. apply Hl. eapply step_finished_stays; eauto.
      * intros Hl Hfin. apply Hl, Hpc, Hfin.
    + rewrite <- H1 at 2. now destruct (perform_all o u1 l).
  - set (u1 := mkUdpServer _ _ _).
    destruct (perform_all_quiet o u1 l Hq) as [H1 H2].
    pose proof (live_entry u Hc o b Hb Hl) as He.
    exists (snd (perform_all o u1 l)). repeat split; auto.
    right. split; [exact Hl|].
    split; [unfold live; intros Hx; now apply Hx|]. split; [exact He|].
    rewrite perform_all_app, H1. cbn [perform_all perform fst snd].
    rewrite (upstream_lost_present u1 _ o He). simpl. now rewrite app_nil_r.
Qed.

(** Replacing a session by a later state of itself keeps the table and the
    sessions in agreement, as long as it stays live. *)
Lemma consistent_update u o b b' :
  consistent u -> sessions u !! o = Some b ->
  Session.client b' = Session.client b -> Session.shutdown b' = false ->
  (live b' <-> live b) ->
  consistent (mkUdpServer (base_servers u) (args u) (<[o := b']> (sessions u))).
Proof.
  intros [H1 H2 H3] Hb Hcl Hsh Hlive.
  pose proof (lookup_lt_Some _ _ _ Hb) as Hlt.
  split; simpl.
  - intros a o' Ha. destruct (H1 a o' Ha) as (b0 & Hb0 & Hc0 & Hl0).
    destruct (decide (o = o')) as [<-|Hne].
    + exists b'. rewrite list_lookup_insert_eq by exact Hlt.
      assert (b0 = b) by congruence. subst b0.
      split; [reflexivity|]. split; [congruence | now apply Hlive].
    + exists b0. now rewrite list_lookup_insert_ne.
  - intros o' b'' Hb'' Hl''.
    apply list_lookup_insert_Some in Hb'' as [(<- & <- & _)|[Hne Hb'']].
    + rewrite Hcl. apply H2; tauto.
    + now apply H2.
  - intros o' b'' Hb''.
    apply list_lookup_insert_Some in Hb'' as [(<- & <- & _)|[Hne Hb'']]; eauto.
Qed.

Lemma consistent_finish u o b b' :
  consistent u -> sessions u !! o = Some b ->
  Session.client b' = Session.client b -> Session.shutdown b' = false ->
  live b -> ~ live b' ->
  consistent (mkUdpServer (delete (Session.client b) (base_servers u)) (args u)
                          (<[o := b']> (sessions u))).
Proof.
  intros [H1 H2 H3] Hb Hcl Hsh Hl Hnl.
  pose proof (H2 o b Hb Hl) as He.
  split; simpl.
  - intros a o' Ha. apply lookup_delete_Some in Ha as [Hne Ha].
    destruct (H1 a o' Ha) as (b0 & Hb0 & Hc0 & Hl0).
    exists b0. rewrite list_lookup_insert_ne; [auto|].
    intros <-. congruence.
  - intros o' b'' Hb'' Hl''.
    apply list_lookup_insert_Some in Hb'' as [(<- & <- & _)|[Hne Hb'']]; [tauto|].
    pose proof (H2 o' b'' Hb'' Hl'') as He'.
    rewrite lookup_delete_ne; [exact He'|]. intros Heq. congruence.
  - intros o' b'' Hb''.
    apply list_lookup_insert_Some in Hb'' as [(<- & <- & _)|[Hne Hb'']]; eauto.
Qed.

Lemma consistent_insert u a b0 :
  consistent u -> base_servers u !! a = None ->
  Session.client b0 = a -> Session.shutdown b0 = false -> live b0 ->
  consistent (mkUdpServer (<[a := length (sessions u)]> (base_servers u)) (args u)
                          (sessions u ++ [b0])).
Proof.
  intros [H1 H2 H3] Hnone Hcl Hsh Hl0. split; simpl.
  - intros a' o' Ha. apply lookup_insert_Some in Ha as [[<- <-]|[Hne Ha]].
    + exists b0. rewrite list_lookup_middle by reflexivity.
      repeat split; auto.
    + destruct (H1 a' o' Ha) as (b1 & Hb1 & Hc1 & Hl1).
      exists b1. rewrite lookup_app_l by eauto using lookup_lt_Some. auto.
  - intros o' b'' Hb'' Hl''.
    apply lookup_snoc_Some in Hb'' as [[Hlt Hb'']|[-> <-]].
    + pose proof (H2 o' b'' Hb'' Hl'') as He.
      rewrite lookup_insert_ne; [exact He|]. intros Heq. congruence.
    + rewrite Hcl. apply lookup_insert_eq.
  - intros o' b'' Hb''.
    apply lookup_snoc_Some in Hb'' as [[Hlt Hb'']|[-> <-]]; eauto.
Qed.
Lemma init_consistent uri certfile client_cert idle_timeout :
  consistent (__init__ uri certfile client_cert idle_timeout).
Proof.
  split; simpl.
  - intros a o H. now rewrite lookup_empty in H.
  - intros o b H. now rewrite lookup_nil in H.
  - intros o b H. now rewrite lookup_nil in H.
Qed.

Lemma construct_returns ssl c uri certfile client_cert idle_timeout b :
  Session.construct ssl c uri certfile client_cert idle_timeout = Ok b ->
  b = Session.__init__ c uri certfile client_cert idle_timeout.
Proof.
  unfold Session.construct. intros H.
  repeat case_match; simplify_eq; reflexivity.
Qed.

Lemma session_resumes_args u o ev : args (fst (session_resumes u o ev)) = args u.
Proof.
  unfold session_resumes. destruct (sessions u !! o) as [b|]; [|reflexivity].
  destruct (Session.step b ev) as [[b' acts]|]; [|reflexivity].
  set (u1 := mkUdpServer _ _ _). change (args u) with (args u1).
  generalize u1. clear. induction acts as [|a acts IH]; intros u; [reflexivity|].
  simpl. destruct (perform o u a) as [u1 o1] eqn:E.
  specialize (IH u1). destruct (perform_all o u1 acts) as [u2 o2]. simpl in *.
  rewrite IH. destruct a; simpl in E; try (injection E as <- _; reflexivity).
  unfold upstream_lost in E. destruct (base_servers u !! client);
    injection E as <- _; reflexivity.
Qed.

Lemma react_args ssl u e : args (fst (react ssl u e)) = args u.
Proof.
  destruct e as [data a|o ev]; simpl; [|apply session_resumes_args].
  unfold datagram_received. repeat case_match; simplify_eq; reflexivity.
Qed.

Lemma react_consistent ssl u e :
  consistent u ->
  consistent (fst (react ssl u e)) /\
  Forall (construction_fails ssl (args u)) (uncaught (snd (react ssl u e))).
Proof.
  intros Hc. destruct e as [data a|o ev]; simpl.
  - unfold datagram_received.
    destruct (base_servers u !! a) as [o|] eqn:Ha.
    + destruct (entry_live u Hc a o Ha) as (b & Hb & Hcl & Hl). rewrite Hb.
      split; [|constructor].
      apply (consistent_update u o b _ Hc Hb);
        [reflexivity | exact (never_aborted u Hc o b Hb) | reflexivity].
    + destruct (Session.construct ssl a _ _ _ _) as [b0|x] eqn:Hb0; simpl.
      * split; [|constructor]. apply construct_returns in Hb0. subst b0.
        apply consistent_insert; auto. unfold live; simpl. discriminate.
      * split; [exact Hc|]. repeat constructor. now exists a.
  - destruct (sessions u !! o) as [b|] eqn:Hb;
      [|unfold session_resumes; rewrite Hb; split; [exact Hc | constructor]].
    destruct (Session.step b ev) as [[b' acts]|] eqn:Hs;
      [|unfold session_resumes; rewrite Hb, Hs; split; [exact Hc | constructor]].
    destruct (session_resumes_spec u o b ev b' acts Hc Hb Hs)
      as (outs & Hu & Hcl & Hsh & [[Hl Heq] | (Hl & Hnl & He & Heq)]);
      rewrite Heq; simpl; rewrite Hu; (split; [|constructor]).
    + now apply (consistent_update u o b).
    + now apply (consistent_finish u o b).
Qed.

Lemma run_args ssl evs : forall u, args (fst (run ssl u evs)) = args u.
Proof.
  induction evs as [|e evs IH]; intros u; [reflexivity|].
  simpl. pose proof (react_args ssl u e) as H.
  destruct (react ssl u e) as [u1 o1]; simpl in *.
  specialize (IH u1). destruct (run ssl u1 evs) as [u2 o2]; simpl in *. congruence.
Qed.

Lemma run_consistent ssl u evs :
  consistent u ->
  consistent (fst (run ssl u evs)) /\
  Forall (construction_fails ssl (args u)) (uncaught (snd (run ssl u evs))).
Proof.
  revert u; induction evs as [|e evs IH]; intros u Hc; [split; [exact Hc | constructor]|].
  simpl. destruct (react_consistent ssl u e Hc) as [H1 H2].
  pose proof (react_args ssl u e) as Ha.
  destruct (react ssl u e) as [u1 o1]; simpl in *.
  destruct (IH u1 H1) as [H3 H4]. rewrite Ha in H4.
  destruct (run ssl u1 evs) as [u2 o2]; simpl in *.
  split; [exact H3|]. rewrite uncaught_app. now apply Forall_app.
Qed.

(** The step that ends a session of a reachable listener. *)
Lemma session_end_pops u o b ev b' acts :
  consistent u -> sessions u !! o = Some b -> live b ->
  Session.step b ev = Some (b', acts) -> ~ live b' ->
  base_servers u !! Session.client b = Some o /\
  base_servers (fst (session_resumes u o ev)) = delete (Session.client b) (base_servers u) /\
  sessions (fst (session_resumes u o ev)) !! o = Some b' /\
  uncaught (snd (session_resumes u o ev)) = [].
Proof.
  intros Hc Hb Hl Hs Hnl.
  pose proof (lookup_lt_Some _ _ _ Hb) as Hlt.
  destruct (session_resumes_spec u o b ev b' acts Hc Hb Hs)
    as (outs & Hu & _ & _ & [[Hl1 Heq] | (_ & _ & He & Heq)]).
  - exfalso. apply Hnl. now apply Hl1.
  - rewrite Heq. simpl. repeat split; auto.
    now apply list_lookup_insert_eq.
Qed.

(** C4, as the code has it.  In every state the listener reaches, the live
    sessions are exactly the entries of the table, so no two live sessions
    have the same source address.  A datagram from an address without entry
    creates one new session object and inserts one entry for it when the
    constructor returns; when the constructor raises (a [wss://] tunnel
    whose TLS context cannot be built), no entry is inserted and the
    exception leaves [datagram_received].  A datagram from an address with
    an entry goes to the session of that entry and leaves the table alone.
    The step that ends a session pops its entry, which is there: a failed
    handshake does so, and so does the exit of [async with].  An ended
    session has no entry and no later step of it touches the table.  The
    only exceptions that leave the listener are those of the constructor:
    no pop ever raises.  A new session never has the identity of an earlier
    one. *)
Theorem demux_table_one_live_session_per_address
  (ssl : Session.ssl_module)
  (uri : string) (certfile client_cert : option string) (idle_timeout : Z)
  (evs : list event) :
  let u := fst (run ssl (__init__ uri certfile client_cert idle_timeout) evs) in
  (forall o1 o2 b1 b2,
      sessions u !! o1 = Some b1 -> sessions u !! o2 = Some b2 ->
      live b1 -> live b2 -> Session.client b1 = Session.client b2 -> o1 = o2) /\
  (forall a o, base_servers u !! a = Some o ->
      exists b, sessions u !! o = Some b /\ Session.client b = a /\ live b) /\
  (forall data a, base_servers u !! a = None ->
      match Session.construct ssl a uri certfile client_cert idle_timeout with
      | Ok b0 =>
          exists u', datagram_received ssl u data a = Ok u' /\
            base_servers u' = <[a := length (sessions u)]> (base_servers u) /\
            size (base_servers u') = S (size (base_servers u)) /\
            sessions u' = sessions u ++ [Session.data_received b0 data] /\
            b0 = new_session u a /\
            sessions u !! length (sessions u) = None
      | Raise e =>
          datagram_received ssl u data a = Raise e /\
          react ssl u (Datagram data a) = (u, [Uncaught e])
      end) /\
  (forall data a o, base_servers u !! a = Some o ->
      exists u', datagram_received ssl u data a = Ok u' /\
        base_servers u' = base_servers u /\
        length (sessions u') = length (sessions u) /\
        exists b, sessions u !! o = Some b /\
                  sessions u' !! o = Some (Session.data_received b data)) /\
  (forall o b ev b' acts, sessions u !! o = Some b -> live b ->
      Session.step b ev = Some (b', acts) -> ~ live b' ->
      base_servers u !! Session.client b = Some o /\
      base_servers (fst (session_resumes u o ev))
        = delete (Session.client b) (base_servers u) /\
      sessions (fst (session_resumes u o ev)) !! o = Some b' /\
      uncaught (snd (session_resumes u o ev)) = []) /\
  (forall o b e, sessions u !! o = Some b -> Session.pc b = Session.Connecting ->
      base_servers u !! Session.client b = Some o /\
      base_servers (fst (session_resumes u o (Session.ConnectFailed e)))
        = delete (Session.client b) (base_servers u)) /\
  (forall o b exc, sessions u !! o = Some b -> Session.pc b = Session.Exiting exc ->
      base_servers u !! Session.client b = Some o /\
      base_servers (fst (session_resumes u o Session.Closed))
        = delete (Session.client b) (base_servers u)) /\
  (forall o b ev, sessions u !! o = Some b -> ~ live b ->
      (forall a, base_servers u !! a <> Some o) /\
      base_servers (fst (session_resumes u o ev)) = base_servers u) /\
  Forall (fun e => exists a,
            Session.construct ssl a uri certfile client_cert idle_timeout = Raise e)
         (uncaught (snd (run ssl (__init__ uri certfile client_cert idle_timeout) evs))) /\
  ((forall a e, Session.construct ssl a uri certfile client_cert idle_timeout <> Raise e) ->
   uncaught (snd (run ssl (__init__ uri certfile client_cert idle_timeout) evs)) = []).
Proof.
  intros u.
  destruct (run_consistent ssl _ evs
              (init_consistent uri certfile client_cert idle_timeout))
    as [Hc Hu]. fold u in Hc.
  pose proof (run_args ssl evs (__init__ uri certfile client_cert idle_timeout)) as Hargs.
  fold u in Hargs. simpl in Hargs.
  split.
  { intros o1 o2 b1 b2 H1 H2 L1 L2 Heq.
    pose proof (live_entry u Hc o1 b1 H1 L1) as E1.
    pose proof (live_entry u Hc o2 b2 H2 L2) as E2.
    rewrite Heq in E1. congruence. }
  split; [exact (entry_live u Hc)|].
  split.
  { intros data a Ha. unfold react, datagram_received, new_session.
    rewrite Ha, Hargs. simpl.
    destruct (Session.construct ssl a uri certfile client_cert idle_timeout)
      as [b0|x] eqn:Hb0; [|now split].
    eexists. split; [reflexivity|]. simpl. repeat split.
    - now apply map_size_insert_None.
    - now apply construct_returns in Hb0.
    - now apply lookup_ge_None. }
  split.
  { intros data a o Ha. unfold datagram_received. rewrite Ha.
    destruct (entry_live u Hc a o Ha) as (b & Hb & _). rewrite Hb.
    eexists. split; [reflexivity|]. simpl.
    split; [reflexivity|]. split; [apply length_insert|].
    exists b. split; [reflexivity|].
    apply list_lookup_insert_eq. eauto using lookup_lt_Some. }
  split.
  { intros o b ev b' acts Hb Hl Hs Hnl.
    exact (session_end_pops u o b ev b' acts Hc Hb Hl Hs Hnl). }
  split.
  { intros o b e Hb Hpc.
    assert (Hl : live b) by (unfold live; rewrite Hpc; discriminate).
    destruct (Session.finally b) as [b' acts] eqn:Hf.
    assert (Hs : Session.step b (Session.ConnectFailed e)
                 = Some (b', Session.log_exception e :: acts)).
    { unfold Session.step, Session.new_client. now rewrite Hpc, Hf. }
    assert (Hnl : ~ live b').
    { unfold Session.finally in Hf. injection Hf as <- _. unfold live. simpl. tauto. }
    destruct (session_end_pops u o b _ b' _ Hc Hb Hl Hs Hnl) as (H1 & H2 & _).
    now split. }
  split.
  { intros o b exc Hb Hpc.
    assert (Hl : live b) by (unfold live; rewrite Hpc; discriminate).
    destruct (Session.finally b) as [b' acts] eqn:Hf.
    assert (Hs : exists acts', Session.step b Session.Closed = Some (b', acts')).
    { unfold Session.step, Session.new_client. rewrite Hpc, Hf. eauto. }
    destruct Hs as [acts' Hs].
    assert (Hnl : ~ live b').
    { unfold Session.finally in Hf. injection Hf as <- _. unfold live. simpl. tauto. }
    destruct (session_end_pops u o b _ b' _ Hc Hb Hl Hs Hnl) as (H1 & H2 & _).
    now split. }
  split.
  { intros o b ev Hb Hnl. split.
    - intros a Ha. destruct (entry_live u Hc a o Ha) as (b0 & Hb0 & _ & Hl0).
      apply Hnl. congruence.
    - destruct (Session.step b ev) as [[b1 acts]|] eqn:Hs.
      + destruct (session_resumes_spec u o b ev b1 acts Hc Hb Hs)
          as (outs & _ & _ & _ & [[Hl1 Heq] | (Hl & _)]); [|contradiction].
        now rewrite Heq.
      + unfold session_resumes. now rewrite Hb, Hs. }
  assert (Hu' : Forall (fun e => exists a,
            Session.construct ssl a uri certfile client_cert idle_timeout = Raise e)
         (uncaught (snd (run ssl (__init__ uri certfile client_cert idle_timeout) evs)))).
  { exact Hu. }
  split; [exact Hu'|].
  intros Hok.
  destruct (uncaught (snd (run ssl (__init__ uri certfile client_cert idle_timeout) evs)))
    as [|x l]; [reflexivity|].
  apply Forall_cons in Hu' as [[a Ha] _]. now destruct (Hok a x).
Qed.

(** C10.  [upstream_lost] for an address without entry raises KeyError;
    in particular a second [upstream_lost] for the same address, after a
    first that found and removed the entry, raises. *)
Theorem upstream_lost_without_entry_raises (u : UdpServer) (a : addr) :
  (base_servers u !! a = None -> upstream_lost u a = Raise (KeyError a)) /\
  (forall u', upstream_lost u a = Ok u' ->
              base_servers u' !! a = None /\ upstream_lost u' a = Raise (KeyError a)).
Proof.
  unfold upstream_lost. split.
  - now intros ->.
  - intros u'. destruct (base_servers u !! a) eqn:Ha; [|discriminate].
    intros [= <-]. simpl. rewrite lookup_delete_eq. now split.
Qed.
Lemma demux_table_one_live_session_per_address_witness :
  let ssl := {| Session.create_default_context := fun f =>
                  match f with
                  | Some "ca.pem"%string => None
                  | _ => Some FileNotFoundError
                  end;
                Session.load_cert_chain := fun _ => Some SSLError |} in
  let u := fst (run ssl (__init__ "wss://gw.example/t" (Some "ca.pem"%string) None 2)
                    [Datagram [Byte.x01] ("198.51.100.4"%string, 5000);
                     Datagram [Byte.x02] ("198.51.100.9"%string, 5001);
                     SessionEvent 0 Session.Connected]) in
  base_servers (fst (session_resumes u 1 (Session.ConnectFailed (TunnelError "refused"))))
    = delete ("198.51.100.9"%string, 5001) (base_servers u) /\
  (exists u', datagram_received ssl u [Byte.x03] ("203.0.113.1"%string, 5002) = Ok u' /\
              size (base_servers u') = S (size (base_servers u))) /\
  (exists u', datagram_received ssl u [Byte.x03] ("198.51.100.4"%string, 5000) = Ok u' /\
              base_servers u' = base_servers u).
Proof.
  intros ssl u.
  destruct (demux_table_one_live_session_per_address
              ssl "wss://gw.example/t" (Some "ca.pem"%string) None 2
              [Datagram [Byte.x01] ("198.51.100.4"%string, 5000);
               Datagram [Byte.x02] ("198.51.100.9"%string, 5001);
               SessionEvent 0 Session.Connected])
    as (_ & _ & Hnew & Hknown & _ & Hfail & _).
  fold u in Hnew, Hknown, Hfail.
  split; [|split].
  - eassert (Hb : sessions u !! 1%nat = Some _) by (vm_compute; reflexivity).
    exact (proj2 (Hfail 1%nat _ (TunnelError "refused") Hb eq_refl)).
  - assert (Ha : base_servers u !! ("203.0.113.1"%string, 5002) = None)
      by (vm_compute; reflexivity).
    specialize (Hnew [Byte.x03] _ Ha).
    destruct (Session.construct ssl ("203.0.113.1"%string, 5002) "wss://gw.example/t"
                                (Some "ca.pem"%string) None 2) as [b0|x] eqn:E.
    + destruct Hnew as (u' & H1 & _ & H2 & _). exists u'. now split.
    + vm_compute in E. discriminate E.
  - assert (Ha : base_servers u !! ("198.51.100.4"%string, 5000) = Some 0%nat)
      by (vm_compute; reflexivity).
    destruct (Hknown [Byte.x03] _ _ Ha) as (u' & H1 & H2 & _).
    exists u'. now split.
Defined.

(** C4 as it was stated fails where the session cannot be constructed: with
    a [wss://] tunnel and a CA bundle that is not there, a datagram from an
    unseen address inserts no entry, and neither does the next one; the
    exception of the constructor leaves [datagram_received] each time. *)
Lemma unseen_address_gets_no_entry_without_tls_context :
  let ssl := {| Session.create_default_context := fun _ => Some FileNotFoundError;
                Session.load_cert_chain := fun _ => None |} in
  let u := __init__ "wss://gw.example/t" (Some "missing.pem"%string) None 120 in
  base_servers u !! ("198.51.100.4"%string, 5000) = None /\
  datagram_received ssl u [Byte.x01] ("198.51.100.4"%string, 5000)
    = Raise FileNotFoundError /\
  run ssl u [Datagram [Byte.x01] ("198.51.100.4"%string, 5000);
             Datagram [Byte.x02] ("198.51.100.4"%string, 5000)]
    = (u, [Uncaught FileNotFoundError; Uncaught FileNotFoundError]) /\
  base_servers (fst (run ssl u [Datagram [Byte.x01] ("198.51.100.4"%string, 5000)]))
    = base_servers u.
Proof. repeat split. Qed.

Lemma upstream_lost_without_entry_raises_witness :
  upstream_lost (__init__ "ws://gw.example/t" None None 2)
                ("198.51.100.4"%string, 5000)
  = Raise (KeyError ("198.51.100.4"%string, 5000)).
Proof.
  apply (proj1 (upstream_lost_without_entry_raises
                  (__init__ "ws://gw.example/t" None None 2)
                  ("198.51.100.4"%string, 5000))).
  apply lookup_empty.
Defined.

End UdpFacts.

(** ** The password file and the tunnel URL *)

Section UrlFacts.
Import Url.

Lemma str_eqb_eq a b : str_eqb a b = true <-> a = b.
Proof.
unfold str_eqb. rewrite String.eqb_eq. split; [|now intros ->].
intros H. rewrite <- (list_ascii_of_string_of_list_ascii a),
  <- (list_ascii_of_string_of_list_ascii b). now rewrite H.
Qed.

Lemma free_of_app bad a b : free_of bad (a ++ b) <-> free_of bad a /\ free_of bad b.
Proof. apply Forall_app. Qed.

Lemma existsb_eqb_false c bad x :
  existsb (Ascii.eqb c) bad = false -> In x bad -> Ascii.eqb x c = false.
Proof.
  intros H Hin. rewrite Ascii.eqb_sym.
  destruct (Ascii.eqb c x) eqn:E; [|reflexivity].
  rewrite <- H. symmetry. apply existsb_exists. exists x. split; auto.
Qed.

(** A string free of a set of characters is free of each of them. *)
Lemma free_of_char bad s x :
  free_of bad s -> In x bad -> Forall (fun c => Ascii.eqb x c = false) s.
Proof.
  intros H Hin. induction H as [|c s Hc _ IH]; constructor; [|exact IH].
  eapply existsb_eqb_false; eauto.
Qed.

Lemma free_of_weaken bad bad' s :
  (forall x, In x bad' -> In x bad) -> free_of bad s -> free_of bad' s.
Proof.
  intros Hsub H. induction H as [|c s Hc _ IH]; constructor; [|exact IH].
  destruct (existsb (Ascii.eqb c) bad') eqn:E; [|reflexivity].
  apply existsb_exists in E as (x & Hx & Hcx).
  rewrite <- Hc. symmetry. apply existsb_exists. exists x. split; auto.
Qed.

Lemma break_at_none p a : Forall (fun c => p c = false) a -> break_at p a = (a, []).
Proof.
  induction 1 as [|c a Hc _ IH]; simpl; [reflexivity|]. now rewrite Hc, IH.
Qed.

Lemma break_at_first p a c b :
  Forall (fun c => p c = false) a -> p c = true ->
  break_at p (a ++ c :: b) = (a, c :: b).
Proof.
  intros Ha Hc. induction Ha as [|x a Hx _ IH]; simpl.
  - now rewrite Hc.
  - now rewrite Hx, IH.
Qed.

Lemma split_once_none x a :
  Forall (fun c => Ascii.eqb x c = false) a -> split_once x a = (a, []).
Proof. intros H. unfold split_once. now rewrite break_at_none. Qed.

Lemma split_once_first x a b :
  Forall (fun c => Ascii.eqb x c = false) a -> split_once x (a ++ x :: b) = (a, b).
Proof.
  intros H. unfold split_once. rewrite break_at_first; auto. apply Ascii.eqb_refl.
Qed.

Lemma split_once_opt x a o :
  Forall (fun c => Ascii.eqb x c = false) a ->
  split_once x (a ++ opt_part x o) = (a, default [] o).
Proof.
  intros H. destruct o as [s|]; simpl.
  - now apply split_once_first.
  - rewrite app_nil_r. now apply split_once_none.
Qed.

Lemma lstrip_keep p s : Forall (fun c => p c = false) s -> lstrip p s = s.
Proof. destruct 1 as [|c s Hc _]; simpl; [reflexivity | now rewrite Hc]. Qed.

Lemma lstrip_head p c s : p c = false -> lstrip p (c :: s) = c :: s.
Proof. intros H. simpl. now rewrite H. Qed.

Lemma filter_safe s :
  free_of unsafe s -> List.filter (fun c => negb (is_unsafe c)) s = s.
Proof.
  induction 1 as [|c s Hc _ IH]; simpl; [reflexivity|].
  assert (E : is_unsafe c = false).
  { unfold is_unsafe. unfold unsafe in Hc. cbn [existsb] in Hc.
    apply orb_false_elim in Hc as [H1 Hc]. apply orb_false_elim in Hc as [H2 Hc].
    apply orb_false_elim in Hc as [H3 _]. now rewrite H1, H2, H3. }
  now rewrite E, IH.
Qed.

Lemma break_at_app p a b :
  Forall (fun c => p c = false) a ->
  (b = [] \/ exists c b', b = c :: b' /\ p c = true) ->
  break_at p (a ++ b) = (a, b).
Proof.
  intros Ha [->|(c & b' & -> & Hc)].
  - rewrite app_nil_r. now apply break_at_none.
  - now apply break_at_first.
Qed.

Lemma contains_free x bad s : free_of bad s -> In x bad -> contains x s = false.
Proof.
  intros H Hin. unfold contains.
  destruct (existsb (Ascii.eqb x) s) eqn:E; [|reflexivity].
  apply existsb_exists in E as (c & Hc & Hxc).
  pose proof (free_of_char bad s x H Hin) as Hf.
  rewrite List.Forall_forall in Hf. rewrite (Hf c Hc) in Hxc. discriminate.
Qed.

Lemma split_scheme_ws rest :
  split_scheme ("w" :: "s" :: ":" :: rest)%char = (lit "ws", rest).
Proof. reflexivity. Qed.

Lemma split_scheme_wss rest :
  split_scheme ("w" :: "s" :: "s" :: ":" :: rest)%char = (lit "wss", rest).
Proof. reflexivity. Qed.

(** What follows the host starts with a delimiter, or is empty. *)
Lemma after_netloc_delimited pa q f :
  (pa = [] \/ exists p, pa = "/"%char :: p) ->
  let rest := pa ++ opt_part "?" q ++ opt_part "#" f in
  rest = [] \/ exists c b', rest = c :: b' /\
                            existsb (Ascii.eqb c) (lit "/?#") = true.
Proof.
  intros [->|[p ->]]; simpl.
  - destruct q as [s|]; simpl; [right; eauto|].
    destruct f as [s|]; simpl; [right; eauto | now left].
  - right. eauto.
Qed.

(** [urlparse] reads a well-formed URL back as its parts. *)
Lemma urlparse_compose lib sch nl pa q f :
  well_formed lib sch nl pa q f ->
  urlparse lib (compose sch nl pa q f) =
    Ok (mkParseResult sch nl pa [] (default [] q) (default [] f)).
Proof.
  intros [Hs Hh Hn Hbr Hbk Hun Ha Hp Hq Hf].
  assert (Hq' : free_of ("#"%char :: unsafe) (opt_part "?" q)).
  { destruct q as [s|]; [|constructor].
    constructor; [reflexivity | now apply Hq]. }
  assert (Hf' : free_of unsafe (opt_part "#" f)).
  { destruct f as [s|]; [|constructor].
    constructor; [reflexivity | now apply Hf]. }
  assert (Hrest : free_of unsafe (nl ++ pa ++ opt_part "?" q ++ opt_part "#" f)).
  { rewrite !free_of_app. repeat split; auto.
    - eapply free_of_weaken; [|exact Hn]. intros x Hx. apply in_or_app. now right.
    - eapply free_of_weaken; [|exact Hp]. intros x Hx. apply in_or_app. now right.
    - eapply free_of_weaken; [|exact Hq']. intros x Hx. now right. }
  assert (Hdelim : Forall (fun c => existsb (Ascii.eqb c) (lit "/?#") = false) nl).
  { eapply free_of_weaken; [|exact Hn]. intros x Hx. apply in_or_app. left.
    simpl in *. tauto. }
  assert (Hhash : Forall (fun c => Ascii.eqb "#" c = false) (pa ++ opt_part "?" q)).
  { apply Forall_app. split.
    - apply (free_of_char _ _ _ Hp). simpl. tauto.
    - apply (free_of_char _ _ _ Hq'). simpl. tauto. }
  assert (Hquest : Forall (fun c => Ascii.eqb "?" c = false) pa).
  { apply (free_of_char _ _ _ Hp). simpl. tauto. }
  assert (Hck : contains "[" nl && contains "]" nl
                && negb (check_bracketed_netloc lib nl) = false).
  { destruct (contains "[" nl); [|reflexivity]. rewrite (Hbk eq_refl).
    now rewrite andb_false_r. }
  unfold urlparse.
  destruct Hs as [-> | ->].
  - change (compose (lit "ws") nl pa q f)
      with ("w" :: "s" :: ":" :: "/" :: "/"
              :: (nl ++ pa ++ opt_part "?" q ++ opt_part "#" f))%char.
    rewrite lstrip_head by reflexivity.
    rewrite filter_safe by (repeat (constructor; [reflexivity|]); exact Hrest).
    rewrite split_scheme_ws. cbv beta iota zeta. cbn [split_netloc].
    rewrite break_at_app by (auto using after_netloc_delimited).
    cbv beta iota zeta. rewrite Hbr, Hck.
    rewrite app_assoc, split_once_opt by exact Hhash.
    cbv beta iota zeta. rewrite split_once_opt by exact Hquest.
    rewrite Hun. reflexivity.
  - change (compose (lit "wss") nl pa q f)
      with ("w" :: "s" :: "s" :: ":" :: "/" :: "/"
              :: (nl ++ pa ++ opt_part "?" q ++ opt_part "#" f))%char.
    rewrite lstrip_head by reflexivity.
    rewrite filter_safe by (repeat (constructor; [reflexivity|]); exact Hrest).
    rewrite split_scheme_wss. cbv beta iota zeta. cbn [split_netloc].
    rewrite break_at_app by (auto using after_netloc_delimited).
    cbv beta iota zeta. rewrite Hbr, Hck.
    rewrite app_assoc, split_once_opt by exact Hhash.
    cbv beta iota zeta. rewrite split_once_opt by exact Hquest.
    rewrite Hun. reflexivity.
Qed.

(** The checks of [urlsplit] that a netloc fails are the ones left out of
    a well-formed URL: on mismatched brackets, on a bracketed host the
    library refuses, and on a netloc that normalisation turns into one with
    a delimiter, [urlparse] raises ValueError. *)
Lemma urlparse_refuses lib sch nl pa q f :
  (sch = lit "ws" \/ sch = lit "wss") ->
  free_of (lit "/?#" ++ unsafe) nl ->
  (pa = [] \/ exists p, pa = "/"%char :: p) ->
  free_of (lit "?#" ++ unsafe) pa ->
  (forall s, q = Some s -> free_of ("#"%char :: unsafe) s) ->
  (forall s, f = Some s -> free_of unsafe s) ->
  brackets_mismatch nl = true
  \/ (contains "[" nl = true /\ contains "]" nl = true
      /\ check_bracketed_netloc lib nl = false)
  \/ checknetloc lib nl = false ->
  urlparse lib (compose sch nl pa q f) = Raise ValueError.
Proof.
  intros Hs Hn Ha Hp Hq Hf Hbad.
  assert (Hq' : free_of ("#"%char :: unsafe) (opt_part "?" q)).
  { destruct q as [s|]; [|constructor].
    constructor; [reflexivity | now apply Hq]. }
  assert (Hf' : free_of unsafe (opt_part "#" f)).
  { destruct f as [s|]; [|constructor].
    constructor; [reflexivity | now apply Hf]. }
  assert (Hrest : free_of unsafe (nl ++ pa ++ opt_part "?" q ++ opt_part "#" f)).
  { rewrite !free_of_app. repeat split; auto.
    - eapply free_of_weaken; [|exact Hn]. intros x Hx. apply in_or_app. now right.
    - eapply free_of_weaken; [|exact Hp]. intros x Hx. apply in_or_app. now right.
    - eapply free_of_weaken; [|exact Hq']. intros x Hx. now right. }
  assert (Hdelim : Forall (fun c => existsb (Ascii.eqb c) (lit "/?#") = false) nl).
  { eapply free_of_weaken; [|exact Hn]. intros x Hx. apply in_or_app. left.
    simpl in *. tauto. }
  assert (Hhash : Forall (fun c => Ascii.eqb "#" c = false) (pa ++ opt_part "?" q)).
  { apply Forall_app. split.
    - apply (free_of_char _ _ _ Hp). simpl. tauto.
    - apply (free_of_char _ _ _ Hq'). simpl. tauto. }
  assert (Hquest : Forall (fun c => Ascii.eqb "?" c = false) pa).
  { apply (free_of_char _ _ _ Hp). simpl. tauto. }
  unfold urlparse.
  destruct Hs as [-> | ->].
  - change (compose (lit "ws") nl pa q f)
      with ("w" :: "s" :: ":" :: "/" :: "/"
              :: (nl ++ pa ++ opt_part "?" q ++ opt_part "#" f))%char.
    rewrite lstrip_head by reflexivity.
    rewrite filter_safe by (repeat (constructor; [reflexivity|]); exact Hrest).
    rewrite split_scheme_ws. cbv beta iota zeta. cbn [split_netloc].
    rewrite break_at_app by (auto using after_netloc_delimited).
    cbv beta iota zeta.
    destruct (brackets_mismatch nl); [reflexivity|].
    destruct (contains "[" nl && contains "]" nl
              && negb (check_bracketed_netloc lib nl)) eqn:Hck; [reflexivity|].
    rewrite app_assoc, split_once_opt by exact Hhash.
    cbv beta iota zeta. rewrite split_once_opt by exact Hquest.
    destruct Hbad as [Hb|[(H1 & H2 & H3)|Hb]]; [discriminate| |now rewrite Hb].
    now rewrite H1, H2, H3 in Hck.
  - change (compose (lit "wss") nl pa q f)
      with ("w" :: "s" :: "s" :: ":" :: "/" :: "/"
              :: (nl ++ pa ++ opt_part "?" q ++ opt_part "#" f))%char.
    rewrite lstrip_head by reflexivity.
    rewrite filter_safe by (repeat (constructor; [reflexivity|]); exact Hrest).
    rewrite split_scheme_wss. cbv beta iota zeta. cbn [split_netloc].
    rewrite break_at_app by (auto using after_netloc_delimited).
    cbv beta iota zeta.
    destruct (brackets_mismatch nl); [reflexivity|].
    destruct (contains "[" nl && contains "]" nl
              && negb (check_bracketed_netloc lib nl)) eqn:Hck; [reflexivity|].
    rewrite app_assoc, split_once_opt by exact Hhash.
    cbv beta iota zeta. rewrite split_once_opt by exact Hquest.
    destruct Hbad as [Hb|[(H1 & H2 & H3)|Hb]]; [discriminate| |now rewrite Hb].
    now rewrite H1, H2, H3 in Hck.
Qed.

Lemma quote_char_quoted c : forallb quoted_char (quote_char c) = true.
Proof. destruct c as [[] [] [] [] [] [] [] []]; vm_compute; reflexivity. Qed.

Lemma quoted_char_harmless c :
  quoted_char c = true ->
  existsb (Ascii.eqb c) ("#"%char :: "?"%char :: unsafe) = false.
Proof. destruct c as [[] [] [] [] [] [] [] []]; vm_compute; congruence. Qed.

Lemma quote_plus_harmless s : free_of ("#"%char :: "?"%char :: unsafe) (quote_plus s).
Proof.
  unfold quote_plus, free_of. induction s as [|c s IH]; simpl; [constructor|].
  apply Forall_app. split; [|exact IH].
  pose proof (quote_char_quoted c) as H. rewrite forallb_forall in H.
  apply List.Forall_forall. intros x Hx. apply quoted_char_harmless. now apply H.
Qed.

Lemma urlencode_t pw : urlencode [(lit "t", pw)] = lit "t=" ++ quote_plus pw.
Proof. reflexivity. Qed.

Lemma urlencode_t_harmless pw :
  free_of ("#"%char :: "?"%char :: unsafe) (urlencode [(lit "t", pw)]).
Proof.
  rewrite urlencode_t. apply free_of_app. split; [|apply quote_plus_harmless].
  repeat constructor.
Qed.

(** [urlunparse] writes the parts of a well-formed URL back in place. *)
Lemma urlunparse_compose sch nl pa qs f :
  (sch = lit "ws" \/ sch = lit "wss") -> nl <> [] ->
  (pa = [] \/ exists p, pa = "/"%char :: p) -> qs <> [] ->
  (forall s, f = Some s -> s <> []) ->
  urlunparse (mkParseResult sch nl pa [] qs (default [] f))
  = compose sch nl pa (Some qs) f.
Proof.
  intros Hs Hn Ha Hq Hf. unfold urlunparse, compose.
  cbn [scheme netloc path params query fragment].
  change (nonempty []) with false. cbv iota.
  assert (E1 : nonempty nl = true) by (now destruct nl).
  assert (E2 : (if nonempty pa && negb (starts_with (lit "/") pa)
                then "/"%char :: pa else pa) = pa).
  { destruct Ha as [->|[p ->]]; reflexivity. }
  assert (E3 : nonempty qs = true) by (now destruct qs).
  rewrite E1, E3. cbn [orb]. rewrite E2.
  assert (E4 : nonempty sch = true) by (destruct Hs as [->| ->]; reflexivity).
  rewrite E4.
  destruct f as [s|]; cbn [default opt_part]; unfold id.
  - assert (E5 : nonempty s = true) by (specialize (Hf s eq_refl); now destruct s).
    rewrite E5. rewrite <- !app_assoc. f_equal.
    change (lit "://") with (":"%char :: lit "//").
    rewrite <- !app_comm_cons, <- !app_assoc. reflexivity.
  - change (nonempty []) with false. cbv iota.
    rewrite <- !app_assoc, app_nil_r. f_equal.
    change (lit "://") with (":"%char :: lit "//").
    rewrite <- !app_comm_cons, <- !app_assoc. reflexivity.
Qed.

Lemma well_formed_with_passwd lib sch nl pa q f pw :
  well_formed lib sch nl pa q f ->
  well_formed lib sch nl pa (Some (urlencode [(lit "t", pw)])) f.
Proof.
  intros [Hs Hh Hn Hbr Hbk Hun Ha Hp Hq Hf]. split; auto.
  intros s [= <-]. eapply free_of_weaken; [|apply urlencode_t_harmless].
  simpl. tauto.
Qed.

(** On a well-formed URL, [update_url_with_passwd] writes the URL again
    with the query replaced by the encoded credential. *)
Lemma update_url_compose lib sch nl pa q f pw :
  well_formed lib sch nl pa q f ->
  update_url_with_passwd lib (compose sch nl pa q f) pw
  = Ok (compose sch nl pa (Some (urlencode [(lit "t", pw)])) f).
Proof.
  intros Hwf. unfold update_url_with_passwd.
  rewrite (urlparse_compose _ _ _ _ _ _ Hwf). unfold replace_query.
  cbn [scheme netloc path params query fragment].
  destruct Hwf as [Hs Hh Hn Hbr Hbk Hun Ha Hp Hq Hf].
  rewrite urlunparse_compose; auto.
  intros s Hs'. now apply Hf.
Qed.

(** *** The first line of the password file *)

Lemma not_cr_lf c :
  existsb (Ascii.eqb c) [CR; LF] = false ->
  Ascii.eqb c CR = false /\ Ascii.eqb c LF = false.
Proof.
  cbn [existsb]. intros H. apply orb_false_elim in H as [H1 H].
  apply orb_false_elim in H as [H2 _]. now split.
Qed.

Lemma universal_newlines_lf line rest :
  free_of [CR; LF] line ->
  universal_newlines (line ++ LF :: rest) = line ++ LF :: universal_newlines rest.
Proof.
  induction 1 as [|c line Hc _ IH]; [reflexivity|].
  apply not_cr_lf in Hc as [Hc _]. cbn [app universal_newlines].
  now rewrite Hc, IH.
Qed.

Lemma universal_newlines_crlf line rest :
  free_of [CR; LF] line ->
  universal_newlines (line ++ CR :: LF :: rest) = line ++ LF :: universal_newlines rest.
Proof.
  induction 1 as [|c line Hc _ IH]; [reflexivity|].
  apply not_cr_lf in Hc as [Hc _]. cbn [app universal_newlines].
  now rewrite Hc, IH.
Qed.

Lemma readline_first line rest :
  free_of [CR; LF] line -> readline (line ++ LF :: rest) = line ++ [LF].
Proof.
  induction 1 as [|c line Hc _ IH]; [reflexivity|].
  apply not_cr_lf in Hc as [_ Hc]. cbn [app readline]. now rewrite Hc, IH.
Qed.

Lemma rstrip_newline line :
  free_of [CR; LF] line -> rstrip [CR; LF] (line ++ [LF]) = line.
Proof.
  intros H. unfold rstrip. rewrite rev_app_distr. cbn [rev app lstrip].
  change (existsb (Ascii.eqb LF) [CR; LF]) with true. cbv iota.
  rewrite lstrip_keep; [apply rev_involutive|].
  apply Forall_rev. exact H.
Qed.

(** The password is the first line of the file, without its line break. *)
Lemma get_passwd_first_line fs file line rest :
  free_of [CR; LF] line ->
  fs file = Some (line ++ LF :: rest) \/ fs file = Some (line ++ CR :: LF :: rest) ->
  get_passwd_from_file fs file = Ok line.
Proof.
  intros Hl H. unfold get_passwd_from_file.
  destruct H as [-> | ->].
  - now rewrite universal_newlines_lf, readline_first, rstrip_newline.
  - now rewrite universal_newlines_crlf, readline_first, rstrip_newline.
Qed.

(** C7.  When the first line of the password file is [secret123],
    ended by LF or CR LF, whatever follows, the password read is
    [secret123]; put into a well-formed tunnel URL it gives that URL with
    the query [t=secret123], and reading the result back gives exactly that
    query.  No credential, whatever it is, puts a line feed or a carriage
    return into the query. *)
Theorem password_file_line_becomes_query
  (lib : library) (fs : string -> option str) (file : string) (rest : str)
  (sch nl pa : str) (q f : option str) :
  well_formed lib sch nl pa q f ->
  fs file = Some (lit "secret123" ++ LF :: rest) \/
  fs file = Some (lit "secret123" ++ CR :: LF :: rest) ->
  get_passwd_from_file fs file = Ok (lit "secret123") /\
  update_url_with_passwd lib (compose sch nl pa q f) (lit "secret123")
    = Ok (compose sch nl pa (Some (lit "t=secret123")) f) /\
  (exists r, urlparse lib (compose sch nl pa (Some (lit "t=secret123")) f) = Ok r /\
             query r = lit "t=secret123") /\
  (forall pw, free_of [CR; LF] (urlencode [(lit "t", pw)])).
Proof.
  intros Hwf Hfile. split; [|split; [|split]].
  - apply (get_passwd_first_line fs file (lit "secret123") rest); [|exact Hfile].
    repeat constructor.
  - exact (update_url_compose lib sch nl pa q f (lit "secret123") Hwf).
  - eexists. split.
    + exact (urlparse_compose _ _ _ _ _ _
               (well_formed_with_passwd lib sch nl pa q f (lit "secret123") Hwf)).
    + reflexivity.
  - intros pw. eapply free_of_weaken; [|apply urlencode_t_harmless].
    simpl. tauto.
Qed.

(** A netloc of ASCII characters without brackets passes the checks of
    [urlsplit], whatever the library. *)
Lemma plain_netloc_passes lib nl :
  is_ascii nl = true -> free_of (lit "[]") nl ->
  brackets_mismatch nl = false /\
  (contains "[" nl = true -> check_bracketed_netloc lib nl = true) /\
  checknetloc lib nl = true.
Proof.
  intros Ha Hb.
  assert (H1 : contains "[" nl = false) by (apply (contains_free _ _ _ Hb); simpl; tauto).
  assert (H2 : contains "]" nl = false) by (apply (contains_free _ _ _ Hb); simpl; tauto).
  split; [|split].
  - unfold brackets_mismatch. now rewrite H1, H2.
  - rewrite H1. discriminate.
  - unfold checknetloc. destruct nl; [reflexivity|]. now rewrite Ha.
Qed.

Lemma example_url_well_formed lib :
  well_formed lib (lit "wss") (lit "gw.example:8443") (lit "/tunnel")
              (Some (lit "room=7")) (Some (lit "sec")).
Proof.
  destruct (plain_netloc_passes lib (lit "gw.example:8443")) as (H1 & H2 & H3);
    [reflexivity | repeat constructor |].
  split.
  - now right.
  - discriminate.
  - repeat constructor.
  - exact H1.
  - exact H2.
  - exact H3.
  - right. now exists (lit "tunnel").
  - repeat constructor.
  - intros s [= <-]. repeat constructor.
  - intros s [= <-]. split; [discriminate | repeat constructor].
Qed.

(** A tunnel URL with an IPv6 literal as its host. *)
Lemma example_ipv6_url_well_formed :
  well_formed Examples.lib (lit "wss") (lit "[::1]:8443") (lit "/tunnel")
              (Some (lit "room=7")) None.
Proof.
  split.
  - now right.
  - discriminate.
  - repeat constructor.
  - reflexivity.
  - reflexivity.
  - reflexivity.
  - right. now exists (lit "tunnel").
  - repeat constructor.
  - intros s [= <-]. repeat constructor.
  - intros s [=].
Qed.

Lemma password_file_line_becomes_query_witness :
  get_passwd_from_file
    (fun _ => Some (lit "secret123" ++ LF :: lit "a second line")) "passwd.txt"
  = Ok (lit "secret123") /\
  update_url_with_passwd Examples.lib (lit "wss://gw.example:8443/tunnel?room=7#sec")
                         (lit "secret123")
  = Ok (lit "wss://gw.example:8443/tunnel?t=secret123#sec") /\
  update_url_with_passwd Examples.lib (lit "wss://[::1]:8443/tunnel?room=7")
                         (lit "secret123")
  = Ok (lit "wss://[::1]:8443/tunnel?t=secret123").
Proof.
  destruct (password_file_line_becomes_query
              Examples.lib
              (fun _ => Some (lit "secret123" ++ LF :: lit "a second line"))
              "passwd.txt" (lit "a second line")
              (lit "wss") (lit "gw.example:8443") (lit "/tunnel")
              (Some (lit "room=7")) (Some (lit "sec"))
              (example_url_well_formed Examples.lib) (or_introl eq_refl))
    as (H1 & H2 & _).
  destruct (password_file_line_becomes_query
              Examples.lib
              (fun _ => Some (lit "secret123" ++ LF :: lit "a second line"))
              "passwd.txt" (lit "a second line")
              (lit "wss") (lit "[::1]:8443") (lit "/tunnel")
              (Some (lit "room=7")) None
              example_ipv6_url_well_formed (or_introl eq_refl))
    as (_ & H3 & _).
  split; [exact H1 | split; [exact H2 | exact H3]].
Defined.

(** C8, as the code has it.  On a well-formed tunnel URL, an IPv6 literal
    as host included, [update_url_with_passwd] returns the URL with the same
    scheme, host and port, path and fragment, and with [t=] followed by the
    encoded password as its whole query: read back, every component but the
    query is the one of the URL given, and the query is the credential
    alone. *)
Theorem update_url_keeps_all_but_query
  (lib : library) (sch nl pa : str) (q f : option str) (pw : str) :
  well_formed lib sch nl pa q f ->
  exists p url' r,
    urlparse lib (compose sch nl pa q f) = Ok p /\
    update_url_with_passwd lib (compose sch nl pa q f) pw = Ok url' /\
    url' = compose sch nl pa (Some (lit "t=" ++ quote_plus pw)) f /\
    urlparse lib url' = Ok r /\
    scheme r = scheme p /\ netloc r = netloc p /\ path r = path p /\
    params r = params p /\ fragment r = fragment p /\
    query p = default [] q /\ query r = lit "t=" ++ quote_plus pw.
Proof.
  intros Hwf. eexists _, _, _.
  split; [exact (urlparse_compose _ _ _ _ _ _ Hwf)|].
  split; [exact (update_url_compose _ _ _ _ _ _ pw Hwf)|].
  split; [reflexivity|].
  split; [exact (urlparse_compose _ _ _ _ _ _
                   (well_formed_with_passwd lib sch nl pa q f pw Hwf))|].
  repeat split.
Qed.

Lemma update_url_keeps_all_but_query_witness :
  (exists r,
    urlparse Examples.lib (lit "wss://gw.example:8443/tunnel?t=p%40ss+word#sec") = Ok r /\
    update_url_with_passwd Examples.lib (lit "wss://gw.example:8443/tunnel?room=7#sec")
                           (lit "p@ss word")
    = Ok (lit "wss://gw.example:8443/tunnel?t=p%40ss+word#sec") /\
    netloc r = lit "gw.example:8443" /\ path r = lit "/tunnel" /\
    fragment r = lit "sec" /\ query r = lit "t=p%40ss+word") /\
  (exists r,
    urlparse Examples.lib (lit "wss://[::1]:8443/tunnel?t=p%40ss+word") = Ok r /\
    update_url_with_passwd Examples.lib (lit "wss://[::1]:8443/tunnel?room=7")
                           (lit "p@ss word")
    = Ok (lit "wss://[::1]:8443/tunnel?t=p%40ss+word") /\
    netloc r = lit "[::1]:8443" /\ path r = lit "/tunnel" /\
    fragment r = [] /\ query r = lit "t=p%40ss+word").
Proof.
  split.
  - destruct (update_url_keeps_all_but_query
                Examples.lib (lit "wss") (lit "gw.example:8443") (lit "/tunnel")
                (Some (lit "room=7")) (Some (lit "sec")) (lit "p@ss word")
                (example_url_well_formed Examples.lib))
      as (p & url' & r & Hp & Hu & -> & Hr & _ & Hn & Hpa & _ & Hf & _ & Hq).
    exists r. rewrite Hn, Hpa, Hf, Hq.
    injection (eq_trans (eq_sym Hp)
                 (urlparse_compose _ _ _ _ _ _ (example_url_well_formed Examples.lib)))
      as ->.
    split; [exact Hr|]. split; [exact Hu|]. repeat split.
  - destruct (update_url_keeps_all_but_query
                Examples.lib (lit "wss") (lit "[::1]:8443") (lit "/tunnel")
                (Some (lit "room=7")) None (lit "p@ss word")
                example_ipv6_url_well_formed)
      as (p & url' & r & Hp & Hu & -> & Hr & _ & Hn & Hpa & _ & Hf & _ & Hq).
    exists r. rewrite Hn, Hpa, Hf, Hq.
    injection (eq_trans (eq_sym Hp)
                 (urlparse_compose _ _ _ _ _ _ example_ipv6_url_well_formed))
      as ->.
    split; [exact Hr|]. split; [exact Hu|]. repeat split.
Defined.

(** C8, as the claim has it, fails: a query parameter present in the
    URL is gone from the result. *)
Lemma update_url_drops_existing_query :
  exists p r,
    urlparse Examples.lib (lit "wss://gw.example:8443/tunnel?room=7#sec") = Ok p /\
    query p = lit "room=7" /\
    update_url_with_passwd Examples.lib (lit "wss://gw.example:8443/tunnel?room=7#sec")
                           (lit "pw")
    = Ok (lit "wss://gw.example:8443/tunnel?t=pw#sec") /\
    urlparse Examples.lib (lit "wss://gw.example:8443/tunnel?t=pw#sec") = Ok r /\
    query r = lit "t=pw".
Proof. eexists _, _. repeat split. Qed.

End UrlFacts.

(** ** Further properties of the watchdog and the session *)

Section MoreSessionFacts.
Import Session SessionSpec.

Ltac session_cases :=
unfold react, abort, data_received, step, new_client, watchdog_task,
  ws_data_sender, ws_data_receiver, deliver_cancel, finally,
  reset_watchdog, set_task, log_exception in *;
repeat (case_match; simplify_eq /=); auto.

Lemma start_without_threshold w evs :
Watchdog.timeout w <= 0 -> 0 <= Watchdog.cnt w ->
snd (Watchdog.start w evs) = None /\ 0 <= Watchdog.cnt (fst (Watchdog.start w evs)).
Proof.
revert w; induction evs as [|e evs IH]; intros w Ht Hc; [now split|].
destruct e; simpl.
- unfold Watchdog.tick; simpl.
  destruct (Z.eqb_spec (Watchdog.cnt w + 1) (Watchdog.timeout w)) as [E|E]; [lia|].
  apply IH; simpl; lia.
- apply IH; simpl; lia.
Qed.

(** X1.  A watchdog whose threshold is zero or negative never completes:
    whatever the schedule of ticks and resets, [start] does not raise. *)
Theorem watchdog_without_positive_threshold_never_fires
  (N : Z) (e : exn) (evs : list Watchdog.event) :
N <= 0 ->
snd (Watchdog.start (Watchdog.__init__ N e) evs) = None /\
0 <= Watchdog.cnt (fst (Watchdog.start (Watchdog.__init__ N e) evs)).
Proof. intros HN. apply start_without_threshold; simpl; lia. Qed.

Lemma watchdog_without_positive_threshold_never_fires_witness :
snd (Watchdog.start (Watchdog.__init__ (-1) (TunnelError "idle"))
       [Watchdog.Tick; Watchdog.Tick; Watchdog.Reset; Watchdog.Tick]) = None.
Proof.
apply (watchdog_without_positive_threshold_never_fires
         (-1) (TunnelError "idle")
         [Watchdog.Tick; Watchdog.Tick; Watchdog.Reset; Watchdog.Tick]).
lia.
Defined.

Lemma find_set_task ts a st :
is_Some (List.find (fun t : activity * task_state => bool_decide (fst t = a)) ts) ->
snd <$> List.find (fun t => bool_decide (fst t = a))
          (List.map (fun t => if bool_decide (fst t = a) then (a, st) else t) ts)
= Some st.
Proof.
induction ts as [|[a' t'] ts IH]; simpl; [intros [x Hx]; discriminate|].
destruct (bool_decide (a' = a)) eqn:E; simpl.
- intros _. now rewrite bool_decide_eq_true_2.
- rewrite E. exact IH.
Qed.

Lemma task_of_set_task s a st :
is_running s a = true -> task_of (set_task s a st) a = Some st.
Proof.
unfold is_running, task_of, set_task. simpl. intros H.
apply find_set_task. destruct (List.find _ (tasks s)); [eauto | discriminate].
Qed.

(** Ticks below the threshold only advance the counter. *)
Lemma ticks_below_threshold k : forall s w,
watchdog s = Some w -> is_running s AWatchdog = true ->
Watchdog.cnt w + Z.of_nat k < Watchdog.timeout w ->
run s (repeat (Resume Tick) k) =
  (set_watchdog s (Some (Watchdog.mk (Watchdog.timeout w)
                                      (Watchdog.cnt w + Z.of_nat k)
                                      (Watchdog.exc w))), []).
Proof.
induction k as [|k IH]; intros s w Hw Hr Hlt.
- simpl. rewrite Z.add_0_r. destruct s, w; simpl in *. now subst.
- change (repeat (Resume Tick) (S k)) with (Resume Tick :: repeat (Resume Tick) k).
  rewrite run_cons.
  assert (E : react s (Resume Tick) =
              (set_watchdog s (Some (Watchdog.mk (Watchdog.timeout w)
                                                  (Watchdog.cnt w + 1)
                                                  (Watchdog.exc w))), [])).
  { unfold react, step, watchdog_task. rewrite Hr, Hw. unfold Watchdog.tick. simpl.
    destruct (Z.eqb_spec (Watchdog.cnt w + 1) (Watchdog.timeout w)); [lia | reflexivity]. }
  rewrite E. cbn [fst snd app].
  set (w1 := Watchdog.mk _ _ _). set (s1 := set_watchdog s (Some w1)).
  rewrite (IH s1 w1 eq_refl Hr) by (simpl; lia). simpl.
  f_equal. unfold set_watchdog; simpl. do 3 f_equal. lia.
Qed.

Lemma closed_after_failure s e :
pc s = Exiting (Some e) -> shutdown s = false ->
react s (Resume Closed) = (fst (finally s), [log_exception e; ConnLost (client s)]).
Proof.
intros Hpc Hsh. unfold react, step, new_client, finally. now rewrite Hpc, Hsh.
Qed.

(** X2.  A session in the race whose watchdog is [k + 1] ticks short of
    its threshold: before the last of these ticks the session is still in
    the race with the watchdog running and has done nothing; after it, once
    [asyncio.wait] returns with the watchdog and the tunnel context is left,
    the session has ended, has logged the watchdog's exception and has
    invoked the "ended" notification, in this order and nothing else. *)
Theorem idle_session_times_out (s : BaseServer) (w : Watchdog.t) (k : nat) :
pc s = Racing -> shutdown s = false ->
watchdog s = Some w -> is_running s AWatchdog = true ->
Watchdog.cnt w + Z.of_nat (S k) = Watchdog.timeout w ->
(forall j, (j <= k)%nat ->
    pc (fst (run s (repeat (Resume Tick) j))) = Racing /\
    is_running (fst (run s (repeat (Resume Tick) j))) AWatchdog = true /\
    snd (run s (repeat (Resume Tick) j)) = []) /\
pc (fst (run s (repeat (Resume Tick) (S k)
                  ++ [Resume (WaitReturns (RTask AWatchdog)); Resume Closed])))
  = Finished /\
snd (run s (repeat (Resume Tick) (S k)
              ++ [Resume (WaitReturns (RTask AWatchdog)); Resume Closed]))
  = [log_exception (Watchdog.exc w); ConnLost (client s)].
Proof.
intros Hpc Hsh Hw Hr Hk. split.
- intros j Hj. rewrite (ticks_below_threshold j s w Hw Hr) by lia.
  simpl. repeat split; auto.
- replace (S k) with (k + 1)%nat by lia.
  rewrite repeat_app, <- app_assoc, run_app.
  rewrite (ticks_below_threshold k s w Hw Hr) by lia. cbn [fst snd app repeat].
  set (s1 := set_watchdog s _).
  assert (E : react s1 (Resume Tick) =
              (set_task (set_watchdog s1 (Some (Watchdog.mk (Watchdog.timeout w)
                                                  (Watchdog.cnt w + Z.of_nat k + 1)
                                                  (Watchdog.exc w))))
                        AWatchdog (Failed (Watchdog.exc w)), [])).
  { unfold react, step, watchdog_task.
    change (is_running s1 AWatchdog) with (is_running s AWatchdog). rewrite Hr.
    unfold s1 at 1. cbn [watchdog set_watchdog]. unfold Watchdog.tick. simpl.
    destruct (Z.eqb_spec (Watchdog.cnt w + Z.of_nat k + 1) (Watchdog.timeout w));
      [reflexivity | lia]. }
  rewrite run_cons, E. cbn [fst snd app].
  set (s2 := set_task _ _ _).
  assert (Ht : task_of s2 AWatchdog = Some (Failed (Watchdog.exc w))).
  { apply task_of_set_task. exact Hr. }
  assert (E2 : react s2 (Resume (WaitReturns (RTask AWatchdog)))
               = (set_pc s2 (Exiting (Some (Watchdog.exc w))), [])).
  { unfold react, step, new_client. change (pc s2) with (pc s). now rewrite Hpc, Ht. }
  rewrite run_cons, E2. cbn [fst snd app].
  rewrite run_cons, (closed_after_failure _ (Watchdog.exc w)) by (auto; reflexivity).
  cbn [fst snd app run]. split; reflexivity.
Qed.

Lemma idle_session_times_out_witness :
snd (run (fst (run (__init__ ("192.0.2.7"%string, 40000) "ws://gw.example/t" None None 2)
                   [Resume Connected]))
         (repeat (Resume Tick) 2
            ++ [Resume (WaitReturns (RTask AWatchdog)); Resume Closed]))
= [LogInfo (ConnIdleTimeout ("192.0.2.7"%string, 40000));
   ConnLost ("192.0.2.7"%string, 40000)].
Proof.
apply (idle_session_times_out
         (fst (run (__init__ ("192.0.2.7"%string, 40000) "ws://gw.example/t" None None 2)
                   [Resume Connected]))
         (Watchdog.__init__ 2 (ConnIdleTimeout ("192.0.2.7"%string, 40000)))
         1%nat); reflexivity.
Defined.

Lemma delivered_app a b : delivered (a ++ b) = delivered a ++ delivered b.
Proof. apply omap_app. Qed.

Lemma tunnel_messages_cons i ins :
tunnel_messages (i :: ins) = tunnel_messages [i] ++ tunnel_messages ins.
Proof. change (i :: ins) with ([i] ++ ins). apply omap_app. Qed.

Lemma react_delivers s i :
Forall (fun x => snd x = client s) (delivered (snd (react s i))) /\
List.map fst (delivered (snd (react s i))) `sublist_of` tunnel_messages [i].
Proof.
session_cases; simpl; split; try constructor; auto; try constructor.
Qed.

(** X3.  Whatever happens to a session, everything it writes to the local
    transport is written for its own client, and the payloads written are
    messages received from the tunnel, each at most once and in the order
    of their arrival. *)
Theorem inbound_messages_go_to_own_client (s : BaseServer) (ins : list input) :
Forall (fun x => snd x = client s) (delivered (snd (run s ins))) /\
List.map fst (delivered (snd (run s ins))) `sublist_of` tunnel_messages ins.
Proof.
revert s; induction ins as [|i ins IH]; intros s.
- simpl. split; constructor.
- rewrite run_cons, tunnel_messages_cons. cbn [snd].
  rewrite delivered_app, map_app.
  destruct (react_delivers s i) as [H1 H2].
  destruct (IH (fst (react s i))) as [H3 H4]. rewrite react_client in H3.
  split; [apply Forall_app; now split | now apply sublist_app].
Qed.

(** X4.  Buffers passed to [data_received] after the session has ended
    are accepted and queued, and never sent: from the step that ends the
    session on, nothing goes to the tunnel and the queue only grows. *)
Theorem data_after_end_is_queued_not_sent
  (client : addr) (uri : string) (certfile client_cert : option string)
  (idle_timeout : Z) (pre : list input) (fin : input) (post : list input) :
let s0 := __init__ client uri certfile client_cert idle_timeout in
let s := fst (run s0 pre) in
let s' := fst (run s0 (pre ++ [fin])) in
pc s <> Finished -> pc s' = Finished ->
sent (snd (run s' post)) = [] /\
que (fst (run s' post)) = que s' ++ received post.
Proof.
intros s0 s s' Hpre Hfin. subst s s'.
rewrite run_app in *. cbn [fst] in *.
set (s := fst (run s0 pre)) in *.
rewrite run_cons in *. cbn [fst run] in *.
assert (Hq : no_task_running (fst (react s fin))).
{ unfold no_task_running. rewrite (react_finishing_cancels s fin Hpre Hfin).
  apply cancel_all_quiet. }
destruct (run_quiet _ post Hfin Hq) as (_ & H2 & _).
split; [exact H2|].
pose proof (run_fifo (fst (react s fin)) post) as H. now rewrite H2 in H.
Qed.

Lemma data_after_end_is_queued_not_sent_witness :
que (fst (run (fst (run (__init__ ("192.0.2.7"%string, 40000) "ws://gw.example/t"
                                  None None 120)
                        ([DataReceived [Byte.x00]]
                           ++ [Resume (ConnectFailed (TunnelError "x"))])))
              [DataReceived [Byte.x01]; Resume SenderGet; DataReceived [Byte.x02]]))
= [[Byte.x00]; [Byte.x01]; [Byte.x02]].
Proof.
apply (data_after_end_is_queued_not_sent
         ("192.0.2.7"%string, 40000) "ws://gw.example/t" None None 120
         [DataReceived [Byte.x00]] (Resume (ConnectFailed (TunnelError "x")))
         [DataReceived [Byte.x01]; Resume SenderGet; DataReceived [Byte.x02]]).
- simpl. discriminate.
- reflexivity.
Defined.

Lemma logged_app a b : logged (a ++ b) = logged a ++ logged b.
Proof. unfold logged. apply List.filter_app. Qed.

Lemma react_unfinished_unlogged s i :
pc (fst (react s i)) <> Finished -> logged (snd (react s i)) = [].
Proof. intros H. session_cases; simpl in *; congruence. Qed.

Lemma react_finished_unlogged s i :
pc s = Finished -> logged (snd (react s i)) = [].
Proof. intros H. session_cases; congruence. Qed.

Lemma run_unfinished_unlogged s ins :
pc (fst (run s ins)) <> Finished -> logged (snd (run s ins)) = [].
Proof.
revert s; induction ins as [|i ins IH]; intros s H; [reflexivity|].
rewrite run_cons in *; simpl in *. rewrite logged_app, IH by exact H.
rewrite react_unfinished_unlogged; [reflexivity|].
intros Hf. apply H. now apply run_finished_stays.
Qed.

Lemma run_finished_unlogged s ins :
pc s = Finished -> logged (snd (run s ins)) = [].
Proof.
revert s; induction ins as [|i ins IH]; intros s H; [reflexivity|].
rewrite run_cons; simpl. rewrite logged_app, react_finished_unlogged by exact H.
now apply IH, react_finished_stays.
Qed.

Lemma react_shutdown_won s i :
(pc s = Exiting None -> shutdown s = true) ->
pc (fst (react s i)) = Exiting None -> shutdown (fst (react s i)) = true.
Proof. intros H H'. session_cases; simpl in *; try congruence; auto. Qed.

Lemma run_shutdown_won s ins :
(pc s = Exiting None -> shutdown s = true) ->
pc (fst (run s ins)) = Exiting None -> shutdown (fst (run s ins)) = true.
Proof.
revert s; induction ins as [|i ins IH]; intros s H; [exact H|].
rewrite run_cons; simpl. apply IH. now apply react_shutdown_won.
Qed.

(** X5.  When the shutdown signal wins the race (the session leaves the
    tunnel context with no exception), [abort] has been called, and the
    session ends silently: over the whole run, before and after, nothing is
    logged and the "ended" notification is never invoked. *)
Theorem aborted_session_ends_silently
  (client : addr) (uri : string) (certfile client_cert : option string)
  (idle_timeout : Z) (pre post : list input) :
let s0 := __init__ client uri certfile client_cert idle_timeout in
pc (fst (run s0 pre)) = Exiting None ->
shutdown (fst (run s0 pre)) = true /\
aborted pre = true /\
pc (fst (run s0 (pre ++ [Resume Closed]))) = Finished /\
logged (snd (run s0 (pre ++ Resume Closed :: post))) = [] /\
notified (snd (run s0 (pre ++ Resume Closed :: post))) = [].
Proof.
intros s0 Hpc.
assert (Hsh : shutdown (fst (run s0 pre)) = true)
  by (apply run_shutdown_won; [discriminate | exact Hpc]).
assert (Hc : react (fst (run s0 pre)) (Resume Closed)
             = (fst (finally (fst (run s0 pre))), [])).
{ unfold react, step, new_client, finally. now rewrite Hpc, Hsh. }
split; [exact Hsh|]. split.
{ rewrite <- (run_shutdown_iff_aborted s0 pre eq_refl). exact Hsh. }
split.
{ rewrite run_app, run_cons, Hc. reflexivity. }
rewrite run_app, run_cons, Hc. cbn [fst snd app].
rewrite logged_app, notified_app.
rewrite run_unfinished_unlogged, run_unfinished_silent by (rewrite Hpc; discriminate).
rewrite run_finished_unlogged, run_finished_silent by reflexivity.
now split.
Qed.

Lemma aborted_session_ends_silently_witness :
logged (snd (run (__init__ ("192.0.2.7"%string, 40000) "ws://gw.example/t" None None 120)
                 ([Abort; Resume Connected; Resume (WaitReturns RShutdown)]
                    ++ Resume Closed :: [DataReceived [Byte.x01]]))) = [].
Proof.
pose proof (aborted_session_ends_silently
              ("192.0.2.7"%string, 40000) "ws://gw.example/t" None None 120
              [Abort; Resume Connected; Resume (WaitReturns RShutdown)]
              [DataReceived [Byte.x01]] eq_refl) as (_ & _ & _ & H & _).
exact H.
Defined.



End MoreSessionFacts.

(** ** Further properties of the UDP listener *)

Section MoreUdpFacts.
Import Udp UdpSpec.

Lemma run_cons_udp ssl u e evs :
run ssl u (e :: evs) =
(fst (run ssl (fst (react ssl u e)) evs), snd (react ssl u e) ++ snd (run ssl (fst (react ssl u e)) evs)).
Proof. simpl. destruct (react ssl u e) as [u1 o1]; simpl. now destruct (run ssl u1 evs). Qed.

(** X6.  Sessions of a UDP listener do not interfere.  Resuming a session
    leaves every other session as it is and every table entry of another
    address as it is; a datagram leaves the entries of all other addresses
    and the sessions of all other addresses as they are, whether or not a
    session is constructed for it. *)
Theorem udp_sessions_are_isolated
  (ssl : Session.ssl_module)
  (uri : string) (certfile client_cert : option string) (idle_timeout : Z)
  (evs : list event) :
let u := fst (run ssl (__init__ uri certfile client_cert idle_timeout) evs) in
(forall o ev o', o' <> o ->
    sessions (fst (session_resumes u o ev)) !! o' = sessions u !! o') /\
(forall o ev b a, sessions u !! o = Some b -> a <> Session.client b ->
    base_servers (fst (session_resumes u o ev)) !! a = base_servers u !! a) /\
(forall data a a', a' <> a ->
    base_servers (fst (react ssl u (Datagram data a))) !! a' = base_servers u !! a') /\
(forall data a o b, sessions u !! o = Some b -> Session.client b <> a ->
    sessions (fst (react ssl u (Datagram data a))) !! o = Some b).
Proof.
intros u.
destruct (run_consistent ssl _ evs (init_consistent uri certfile client_cert idle_timeout))
  as [Hc _]. fold u in Hc.
split; [|split; [|split]].
- intros o ev o' Hne.
  destruct (sessions u !! o) as [b|] eqn:Hb;
    [|unfold session_resumes; now rewrite Hb].
  destruct (Session.step b ev) as [[b' acts]|] eqn:Hs;
    [|unfold session_resumes; now rewrite Hb, Hs].
  destruct (session_resumes_spec u o b ev b' acts Hc Hb Hs)
    as (outs & _ & _ & _ & [[_ Heq] | (_ & _ & _ & Heq)]);
    rewrite Heq; simpl; now apply list_lookup_insert_ne.
- intros o ev b a Hb Hne.
  destruct (Session.step b ev) as [[b' acts]|] eqn:Hs;
    [|unfold session_resumes; now rewrite Hb, Hs].
  destruct (session_resumes_spec u o b ev b' acts Hc Hb Hs)
    as (outs & _ & _ & _ & [[_ Heq] | (_ & _ & _ & Heq)]);
    rewrite Heq; simpl; [reflexivity|].
  apply lookup_delete_ne. congruence.
- intros data a a' Hne. unfold react, datagram_received.
  destruct (base_servers u !! a) as [o|] eqn:Ha.
  + now destruct (sessions u !! o).
  + destruct (Session.construct ssl a _ _ _ _); [|reflexivity].
    simpl. now apply lookup_insert_ne.
- intros data a o b Hb Hne. unfold react, datagram_received.
  destruct (base_servers u !! a) as [o1|] eqn:Ha.
  + destruct (entry_live u Hc a o1 Ha) as (b1 & Hb1 & Hc1 & _). rewrite Hb1. simpl.
    rewrite list_lookup_insert_ne; [exact Hb|]. intros <-. congruence.
  + destruct (Session.construct ssl a _ _ _ _); [|exact Hb].
    simpl. rewrite lookup_app_l; [exact Hb|]. eauto using lookup_lt_Some.
Qed.

Lemma udp_sessions_are_isolated_witness :
let u := fst (run Examples.ssl
                  (__init__ "wss://gw.example/t" (Some "ca.pem"%string) None 2)
                  [Datagram [Byte.x01] ("198.51.100.4"%string, 5000);
                   Datagram [Byte.x02] ("198.51.100.9"%string, 5001);
                   SessionEvent 0 Session.Connected]) in
(* the first session sends its datagram on: the second session stays *)
sessions (fst (session_resumes u 0 Session.SenderGet)) !! 1%nat
  = sessions u !! 1%nat /\
(* the handshake of the second session fails: the entry of the first stays *)
base_servers (fst (session_resumes u 1 (Session.ConnectFailed (TunnelError "refused"))))
  !! ("198.51.100.4"%string, 5000)
  = base_servers u !! ("198.51.100.4"%string, 5000) /\
(* a datagram of the first address: the entry and the session of the second stay *)
base_servers (fst (react Examples.ssl u (Datagram [Byte.x03] ("198.51.100.4"%string, 5000))))
  !! ("198.51.100.9"%string, 5001)
  = base_servers u !! ("198.51.100.9"%string, 5001) /\
(exists b, sessions u !! 1%nat = Some b /\
   sessions (fst (react Examples.ssl u (Datagram [Byte.x03] ("198.51.100.4"%string, 5000))))
     !! 1%nat = Some b).
Proof.
intros u.
destruct (udp_sessions_are_isolated
            Examples.ssl "wss://gw.example/t" (Some "ca.pem"%string) None 2
            [Datagram [Byte.x01] ("198.51.100.4"%string, 5000);
             Datagram [Byte.x02] ("198.51.100.9"%string, 5001);
             SessionEvent 0 Session.Connected])
  as (H1 & H2 & H3 & H4).
fold u in H1, H2, H3, H4.
eassert (Hb : sessions u !! 1%nat = Some _) by (vm_compute; reflexivity).
split; [|split; [|split]].
- apply (H1 0%nat _ 1%nat). discriminate.
- apply (H2 1%nat _ _ _ Hb). vm_compute. discriminate.
- apply H3. discriminate.
- eexists. split; [exact Hb|]. apply (H4 _ _ _ _ Hb). vm_compute. discriminate.
Defined.


Lemma perform_all_sessions o u acts :
sessions (fst (perform_all o u acts)) = sessions u.
Proof.
revert u; induction acts as [|a acts IH]; intros u; [reflexivity|].
simpl. destruct (perform o u a) as [u1 o1] eqn:E.
specialize (IH u1). destruct (perform_all o u1 acts) as [u2 o2]. simpl in *.
rewrite IH. destruct a; simpl in E; try (injection E as <- _; reflexivity).
unfold upstream_lost in E. destruct (base_servers u !! client);
  injection E as <- _; reflexivity.
Qed.

Lemma perform_all_sent_to o u acts :
sent_to (snd (perform_all o u acts)) = List.map snd (Session.delivered acts).
Proof.
revert u; induction acts as [|a acts IH]; intros u; [reflexivity|].
simpl. destruct (perform o u a) as [u1 o1] eqn:E.
specialize (IH u1). destruct (perform_all o u1 acts) as [u2 o2]. simpl in *.
unfold sent_to in *. rewrite omap_app, IH.
destruct a; simpl in E; try (injection E as _ <-; reflexivity).
unfold upstream_lost in E. destruct (base_servers u !! client);
  injection E as _ <-; reflexivity.
Qed.

Lemma perform_all_tunnel_sends o o' u acts :
tunnel_sends o (snd (perform_all o' u acts))
= if decide (o' = o) then Session.sent acts else [].
Proof.
revert u; induction acts as [|a acts IH]; intros u; [now destruct (decide _)|].
simpl. destruct (perform o' u a) as [u1 o1] eqn:E.
specialize (IH u1). destruct (perform_all o' u1 acts) as [u2 o2]. simpl in *.
unfold tunnel_sends in *. rewrite omap_app, IH.
destruct a; simpl in E;
  try (injection E as _ <-; simpl; now destruct (decide (o' = o))).
unfold upstream_lost in E. destruct (base_servers u !! client);
  injection E as _ <-; simpl; now destruct (decide (o' = o)).
Qed.

(** The sessions and the tunnel traffic after a resumption. *)
Lemma session_resumes_effect u o ev :
match sessions u !! o with
| Some b =>
    match Session.step b ev with
    | Some (b', acts) =>
        sessions (fst (session_resumes u o ev)) = <[o := b']> (sessions u) /\
        sent_to (snd (session_resumes u o ev)) = List.map snd (Session.delivered acts) /\
        forall o1, tunnel_sends o1 (snd (session_resumes u o ev))
                   = if decide (o = o1) then Session.sent acts else []
    | None => session_resumes u o ev = (u, [])
    end
| None => session_resumes u o ev = (u, [])
end.
Proof.
unfold session_resumes. destruct (sessions u !! o) as [b|]; [|reflexivity].
destruct (Session.step b ev) as [[b' acts]|]; [|reflexivity].
rewrite perform_all_sessions, perform_all_sent_to. repeat split.
intros o1. apply perform_all_tunnel_sends.
Qed.

Lemma step_as_react b ev b' acts :
Session.step b ev = Some (b', acts) -> Session.react b (Session.Resume ev) = (b', acts).
Proof. intros H. unfold Session.react. now rewrite H. Qed.

(** Datagrams are only ever sent to the client of some session. *)
Lemma run_sent_to ssl (P : addr -> Prop) evs : forall u,
(forall o b, sessions u !! o = Some b -> P (Session.client b)) ->
Forall P (sources evs) ->
Forall P (sent_to (snd (run ssl u evs))).
Proof.
induction evs as [|e evs IH]; intros u Hu Hs; [constructor|].
rewrite run_cons_udp. cbn [snd]. unfold sent_to. rewrite omap_app.
apply Forall_app. destruct e as [data a|o ev].
- simpl in Hs. apply Forall_cons in Hs as [Ha Hs].
  unfold react, datagram_received. destruct (base_servers u !! a) as [o1|].
  + destruct (sessions u !! o1) as [b1|] eqn:Hb1; simpl;
      (split; [constructor|]); (apply IH; [|exact Hs]); [|exact Hu].
    simpl. intros o b H.
    apply list_lookup_insert_Some in H as [(<- & <- & _)|[_ H]]; eauto.
    exact (Hu _ _ Hb1).
  + destruct (Session.construct ssl a _ _ _ _) as [b0|x] eqn:Hb0; simpl;
      (split; [constructor|]); (apply IH; [|exact Hs]); [|exact Hu].
    apply construct_returns in Hb0. subst b0.
    simpl. intros o b H. apply lookup_snoc_Some in H as [[_ H]|[_ <-]]; eauto.
- simpl in Hs. pose proof (session_resumes_effect u o ev) as He. simpl.
  destruct (sessions u !! o) as [b|] eqn:Hb;
    [|rewrite He; split; [constructor | now apply IH]].
  destruct (Session.step b ev) as [[b' acts]|] eqn:Hstep;
    [|rewrite He; split; [constructor | now apply IH]].
  destruct He as (H1 & H2 & _).
  pose proof (step_as_react _ _ _ _ Hstep) as Hr.
  split.
  + fold (sent_to (snd (session_resumes u o ev))). rewrite H2.
    pose proof (proj1 (react_delivers b (Session.Resume ev))) as Hd.
    rewrite Hr in Hd. simpl in Hd.
    apply Forall_map. eapply Forall_impl; [exact Hd|].
    intros x ->. exact (Hu _ _ Hb).
  + apply IH; [|exact Hs]. rewrite H1. intros o1 b1 H.
    apply list_lookup_insert_Some in H as [(<- & <- & _)|[_ H]]; eauto.
    pose proof (react_client b (Session.Resume ev)) as Hc. rewrite Hr in Hc.
    simpl in Hc. rewrite Hc. exact (Hu _ _ Hb).
Qed.

(** X7.  A UDP listener sends datagrams only to addresses it has received
    a datagram from. *)
Theorem replies_go_to_seen_sources
  (ssl : Session.ssl_module)
  (uri : string) (certfile client_cert : option string) (idle_timeout : Z)
  (evs : list event) (a : addr) :
a ∈ sent_to (snd (run ssl (__init__ uri certfile client_cert idle_timeout) evs)) ->
a ∈ sources evs.
Proof.
intros Ha.
assert (HF : Forall (fun x => x ∈ sources evs)
               (sent_to (snd (run ssl (__init__ uri certfile client_cert idle_timeout) evs)))).
{ apply run_sent_to.
  - intros o b Hb. simpl in Hb. now rewrite lookup_nil in Hb.
  - apply Forall_forall. auto. }
rewrite Forall_forall in HF. exact (HF a Ha).
Qed.

Lemma replies_go_to_seen_sources_witness :
("198.51.100.4"%string, 5000)
  ∈ sources [Datagram [Byte.x01] ("198.51.100.4"%string, 5000);
             SessionEvent 0 Session.Connected;
             SessionEvent 0 (Session.Received [Byte.x02])].
Proof.
apply (replies_go_to_seen_sources Examples.ssl "ws://gw.example/t" None None 2
         [Datagram [Byte.x01] ("198.51.100.4"%string, 5000);
          SessionEvent 0 Session.Connected;
          SessionEvent 0 (Session.Received [Byte.x02])]).
vm_compute. apply list_elem_of_here.
Defined.

(** A session object stays where it is, keeps its client, and once ended
    stays ended. *)
Lemma react_session_persists ssl u e o b :
sessions u !! o = Some b ->
exists b1, sessions (fst (react ssl u e)) !! o = Some b1 /\
           Session.client b1 = Session.client b /\
           (Session.pc b = Session.Finished -> Session.pc b1 = Session.Finished).
Proof.
intros Hb. pose proof (lookup_lt_Some _ _ _ Hb) as Hlt.
destruct e as [data a|o' ev]; simpl.
- unfold datagram_received. destruct (base_servers u !! a) as [o1|].
  + destruct (sessions u !! o1) as [b1|] eqn:Hb1; [|eauto]. simpl.
    destruct (decide (o1 = o)) as [->|Hne].
    * rewrite list_lookup_insert_eq by exact Hlt.
      assert (b1 = b) by congruence. subst b1. eauto.
    * rewrite list_lookup_insert_ne by exact Hne. eauto.
  + destruct (Session.construct ssl a _ _ _ _) as [b0|x]; [|eauto].
    simpl. rewrite lookup_app_l by exact Hlt. eauto.
- pose proof (session_resumes_effect u o' ev) as He.
  destruct (sessions u !! o') as [b0|] eqn:Hb0; [|rewrite He; eauto].
  destruct (Session.step b0 ev) as [[b' acts]|] eqn:Hs; [|rewrite He; eauto].
  destruct He as (-> & _). destruct (decide (o' = o)) as [->|Hne].
  + rewrite list_lookup_insert_eq by exact Hlt.
    assert (b0 = b) by congruence. subst b0. exists b'. split; [reflexivity|].
    pose proof (react_client b (Session.Resume ev)) as Hc.
    rewrite (step_as_react _ _ _ _ Hs) in Hc. split; [exact Hc|].
    eauto using step_finished_stays.
  + rewrite list_lookup_insert_ne by exact Hne. eauto.
Qed.

Lemma run_session_finished ssl u evs : forall o b,
sessions u !! o = Some b -> Session.pc b = Session.Finished ->
exists b1, sessions (fst (run ssl u evs)) !! o = Some b1 /\ Session.pc b1 = Session.Finished.
Proof.
revert u; induction evs as [|e evs IH]; intros u o b Hb Hf; [eauto|].
rewrite run_cons_udp. cbn [fst].
destruct (react_session_persists ssl u e o b Hb) as (b1 & Hb1 & _ & Hf1).
eapply IH; eauto.
Qed.

(** One step, seen from a live session: what it sends and what it holds
    grows by the datagram of its client, if the step is one. *)
Lemma react_queue ssl u e o b :
consistent u -> sessions u !! o = Some b -> live b ->
exists b1, sessions (fst (react ssl u e)) !! o = Some b1 /\
           Session.client b1 = Session.client b /\
           tunnel_sends o (snd (react ssl u e)) ++ Session.que b1
           = Session.que b ++ datagrams_from (Session.client b) [e].
Proof.
intros Hc Hb Hl. pose proof (lookup_lt_Some _ _ _ Hb) as Hlt.
pose proof (live_entry u Hc o b Hb Hl) as He.
destruct e as [data a|o' ev]; simpl.
- unfold datagram_received. destruct (decide (a = Session.client b)) as [->|Hne].
  + rewrite He, Hb. simpl. rewrite list_lookup_insert_eq by exact Hlt.
    eexists. repeat split.
  + destruct (base_servers u !! a) as [o1|] eqn:Ha.
    * destruct (entry_live u Hc a o1 Ha) as (b1 & Hb1 & Hc1 & _). rewrite Hb1. simpl.
      rewrite list_lookup_insert_ne by (intros ->; congruence).
      exists b. rewrite app_nil_r. now repeat split.
    * destruct (Session.construct ssl a _ _ _ _) as [b0|x]; simpl.
      -- rewrite lookup_app_l by exact Hlt.
         exists b. rewrite app_nil_r. now repeat split.
      -- exists b. rewrite app_nil_r. now repeat split.
- rewrite app_nil_r. pose proof (session_resumes_effect u o' ev) as Hx.
  destruct (sessions u !! o') as [b0|] eqn:Hb0; [|rewrite Hx; eauto].
  destruct (Session.step b0 ev) as [[b' acts]|] eqn:Hs; [|rewrite Hx; eauto].
  destruct Hx as (-> & _ & Hts). rewrite Hts.
  destruct (decide (o' = o)) as [->|Hne].
  + rewrite list_lookup_insert_eq by exact Hlt.
    assert (b0 = b) by congruence. subst b0. exists b'. split; [reflexivity|].
    pose proof (react_client b (Session.Resume ev)) as Hcl.
    pose proof (react_fifo b (Session.Resume ev)) as Hq.
    rewrite (step_as_react _ _ _ _ Hs) in Hcl, Hq. simpl in Hcl, Hq.
    rewrite app_nil_r in Hq. now split.
  + rewrite list_lookup_insert_ne by exact Hne. eauto.
Qed.

Lemma datagrams_from_cons a e evs :
datagrams_from a (e :: evs) = datagrams_from a [e] ++ datagrams_from a evs.
Proof. change (e :: evs) with ([e] ++ evs). apply omap_app. Qed.

Lemma run_queue ssl evs : forall u o b,
consistent u -> sessions u !! o = Some b ->
(forall b', sessions (fst (run ssl u evs)) !! o = Some b' -> live b') ->
exists b', sessions (fst (run ssl u evs)) !! o = Some b' /\
           tunnel_sends o (snd (run ssl u evs)) ++ Session.que b'
           = Session.que b ++ datagrams_from (Session.client b) evs.
Proof.
induction evs as [|e evs IH]; intros u o b Hc Hb Hlive.
- exists b. simpl. now rewrite app_nil_r.
- rewrite run_cons_udp in *. cbn [fst snd] in *.
  assert (Hl : live b).
  { intros Hf. destruct (run_session_finished ssl u (e :: evs) o b Hb Hf) as (b2 & Hb2 & Hf2).
    rewrite run_cons_udp in Hb2. now apply (Hlive b2 Hb2). }
  destruct (react_queue ssl u e o b Hc Hb Hl) as (b1 & Hb1 & Hc1 & Hq1).
  destruct (IH (fst (react ssl u e)) o b1 (proj1 (react_consistent ssl u e Hc)) Hb1 Hlive)
    as (b' & Hb' & Hq').
  exists b'. split; [exact Hb'|].
  unfold tunnel_sends in *. rewrite omap_app, <- app_assoc, Hq', Hc1.
  rewrite app_assoc, Hq1, <- app_assoc. now rewrite <- datagrams_from_cons.
Qed.

(** X8.  While the session of a source address lives, the datagrams that
    arrive from this address are exactly what the session has sent into its
    tunnel followed by what it still holds in its queue: one message per
    datagram, the same payloads, in the order of arrival, unaffected by the
    traffic of other addresses. *)
Theorem datagrams_of_an_address_reach_its_tunnel_in_order
  (ssl : Session.ssl_module)
  (uri : string) (certfile client_cert : option string) (idle_timeout : Z)
  (pre evs : list event) (o : nat) (b : Session.BaseServer) :
let u := fst (run ssl (__init__ uri certfile client_cert idle_timeout) pre) in
sessions u !! o = Some b ->
(forall b', sessions (fst (run ssl u evs)) !! o = Some b' -> live b') ->
exists b', sessions (fst (run ssl u evs)) !! o = Some b' /\
           tunnel_sends o (snd (run ssl u evs)) ++ Session.que b'
           = Session.que b ++ datagrams_from (Session.client b) evs.
Proof.
intros u Hb Hlive. apply run_queue; auto.
apply run_consistent, init_consistent.
Qed.

Lemma datagrams_of_an_address_reach_its_tunnel_in_order_witness :
exists b',
  sessions (fst (run Examples.ssl (fst (run Examples.ssl (__init__ "ws://gw.example/t" None None 2)
                               [Datagram [Byte.x01] ("198.51.100.4"%string, 5000);
                                SessionEvent 0 Session.Connected]))
                     [Datagram [Byte.x02] ("198.51.100.4"%string, 5000);
                      Datagram [Byte.x09] ("198.51.100.9"%string, 5000);
                      SessionEvent 0 Session.SenderGet;
                      Datagram [Byte.x03] ("198.51.100.4"%string, 5000)])) !! 0%nat
  = Some b' /\
  tunnel_sends 0
    (snd (run Examples.ssl (fst (run Examples.ssl (__init__ "ws://gw.example/t" None None 2)
                        [Datagram [Byte.x01] ("198.51.100.4"%string, 5000);
                         SessionEvent 0 Session.Connected]))
              [Datagram [Byte.x02] ("198.51.100.4"%string, 5000);
               Datagram [Byte.x09] ("198.51.100.9"%string, 5000);
               SessionEvent 0 Session.SenderGet;
               Datagram [Byte.x03] ("198.51.100.4"%string, 5000)]))
  ++ Session.que b'
  = [[Byte.x01]; [Byte.x02]; [Byte.x03]].
Proof.
eassert (Hb : sessions (fst (run Examples.ssl (__init__ "ws://gw.example/t" None None 2)
                               [Datagram [Byte.x01] ("198.51.100.4"%string, 5000);
                                SessionEvent 0 Session.Connected])) !! 0%nat = Some _).
{ vm_compute. reflexivity. }
destruct (datagrams_of_an_address_reach_its_tunnel_in_order
            Examples.ssl "ws://gw.example/t" None None 2
            [Datagram [Byte.x01] ("198.51.100.4"%string, 5000);
             SessionEvent 0 Session.Connected]
            [Datagram [Byte.x02] ("198.51.100.4"%string, 5000);
             Datagram [Byte.x09] ("198.51.100.9"%string, 5000);
             SessionEvent 0 Session.SenderGet;
             Datagram [Byte.x03] ("198.51.100.4"%string, 5000)]
            0%nat _ Hb) as (b' & H1 & H2).
- intros b' H. vm_compute in H. injection H as <-. unfold live. simpl. discriminate.
- exists b'. split; [exact H1 | exact H2].
Defined.

End MoreUdpFacts.

(** ** Further properties of the password file and the tunnel URL *)

Section MoreUrlFacts.
Import Url UrlSpec.

Lemma quoted_char_no_delimiter c :
quoted_char c = true -> existsb (Ascii.eqb c) delimiters = false.
Proof. destruct c as [[] [] [] [] [] [] [] []]; vm_compute; congruence. Qed.

(** X9.  The encoded credential is made of letters, digits and the
    characters [_ . - ~ + %] only: whatever the password, the encoding holds
    no [&], [=], [#], [?], [/], [;], [:], [@], no space, tab or line break,
    so a password cannot add a parameter, a fragment or a line to the URL. *)
Theorem encoded_credential_has_no_delimiter (pw : str) :
Forall (fun c => quoted_char c = true) (quote_plus pw) /\
free_of delimiters (quote_plus pw) /\
urlencode [(lit "t", pw)] = lit "t=" ++ quote_plus pw.
Proof.
assert (H : Forall (fun c => quoted_char c = true) (quote_plus pw)).
{ unfold quote_plus. induction pw as [|c pw IH]; simpl; [constructor|].
  apply Forall_app. split; [|exact IH].
  pose proof (quote_char_quoted c) as Hc. rewrite forallb_forall in Hc.
  apply List.Forall_forall. exact Hc. }
split; [exact H|]. split; [|reflexivity].
unfold free_of. eapply Forall_impl; [exact H|].
intros c Hc. now apply quoted_char_no_delimiter.
Qed.

Lemma unquote_quote_char c rest :
unquote_plus (quote_char c ++ rest) = c :: unquote_plus rest.
Proof. destruct c as [[] [] [] [] [] [] [] []]; reflexivity. Qed.

(** X10.  The encoding of the credential can be undone, so that two
    different passwords never give the same query. *)
Theorem quote_plus_is_injective (pw pw' : str) :
unquote_plus (quote_plus pw) = pw /\
(quote_plus pw = quote_plus pw' -> pw = pw') /\
(urlencode [(lit "t", pw)] = urlencode [(lit "t", pw')] -> pw = pw').
Proof.
assert (H : forall s, unquote_plus (quote_plus s) = s).
{ induction s as [|c s IH]; [reflexivity|].
  unfold quote_plus in *. simpl. now rewrite unquote_quote_char, IH. }
split; [apply H|]. split.
- intros E. rewrite <- (H pw), <- (H pw'). now rewrite E.
- intros E. rewrite !urlencode_t in E. apply app_inv_head in E.
  rewrite <- (H pw), <- (H pw'). now rewrite E.
Qed.

Lemma quote_plus_is_injective_witness :
unquote_plus (quote_plus (lit "p@ss w+rd%")) = lit "p@ss w+rd%".
Proof. apply (quote_plus_is_injective (lit "p@ss w+rd%") []). Defined.

Lemma universal_newlines_cr line rest :
free_of [CR; LF] line ->
exists r, universal_newlines (line ++ CR :: rest) = line ++ LF :: r.
Proof.
induction 1 as [|c line Hc _ [r IH]].
- destruct rest as [|c' rest']; [now exists []|].
  simpl. destruct (Ascii.eqb c' LF); eauto.
- apply not_cr_lf in Hc as [Hc _]. exists r.
  cbn [app universal_newlines]. now rewrite Hc, IH.
Qed.

Lemma universal_newlines_plain line :
free_of [CR; LF] line -> universal_newlines line = line.
Proof.
induction 1 as [|c line Hc _ IH]; [reflexivity|].
apply not_cr_lf in Hc as [Hc _]. cbn [universal_newlines]. now rewrite Hc, IH.
Qed.

Lemma readline_plain line : free_of [CR; LF] line -> readline line = line.
Proof.
induction 1 as [|c line Hc _ IH]; [reflexivity|].
apply not_cr_lf in Hc as [_ Hc]. cbn [readline]. now rewrite Hc, IH.
Qed.

Lemma rstrip_plain line : free_of [CR; LF] line -> rstrip [CR; LF] line = line.
Proof.
intros H. unfold rstrip. rewrite lstrip_keep; [apply rev_involutive|].
apply Forall_rev. exact H.
Qed.

Lemma password_is_first_line_aux
  (fs : string -> option str) (file : string) (line content : str) :
free_of [CR; LF] line -> fs file = Some content ->
content = line \/ (exists rest, content = line ++ LF :: rest \/
                                content = line ++ CR :: rest) ->
get_passwd_from_file fs file = Ok line.
Proof.
intros Hl Hf H. unfold get_passwd_from_file. rewrite Hf.
destruct H as [-> | [rest [-> | ->]]].
- now rewrite universal_newlines_plain, readline_plain, rstrip_plain.
- now rewrite universal_newlines_lf, readline_first, rstrip_newline.
- destruct (universal_newlines_cr line rest Hl) as [r ->].
  now rewrite readline_first, rstrip_newline.
Qed.

(** X11.  The password is the text of the file before its first line
    break, whether that is LF, CR LF or a lone CR, and whatever follows it;
    it is the whole file when the file has no line break (an empty file
    gives the empty password). *)
Theorem password_is_first_line
  (fs : string -> option str) (file : string) (line rest : str) :
free_of [CR; LF] line ->
fs file = Some line \/ fs file = Some (line ++ LF :: rest) \/
fs file = Some (line ++ CR :: rest) ->
get_passwd_from_file fs file = Ok line.
Proof.
intros Hl [H | [H | H]];
  apply (password_is_first_line_aux fs file line _ Hl H); eauto.
Qed.

Lemma password_is_first_line_witness :
get_passwd_from_file (fun _ => Some (lit "s3cret" ++ CR :: lit "old mac file")) "p"
= Ok (lit "s3cret").
Proof.
apply (password_is_first_line
         (fun _ => Some (lit "s3cret" ++ CR :: lit "old mac file")) "p"
         (lit "s3cret") (lit "old mac file")).
- repeat constructor.
- right. right. reflexivity.
Defined.

(** Every text is a line followed by nothing or by a line break. *)
Lemma first_line_exists s :
exists line, free_of [CR; LF] line /\
  (s = line \/ exists rest, s = line ++ LF :: rest \/ s = line ++ CR :: rest).
Proof.
induction s as [|c s (line & Hl & H)].
- exists []. split; [constructor | now left].
- destruct (Ascii.eqb_spec c LF) as [->|Hlf].
  { exists []. split; [constructor|]. right. exists s. now left. }
  destruct (Ascii.eqb_spec c CR) as [->|Hcr].
  { exists []. split; [constructor|]. right. exists s. now right. }
  exists (c :: line). split.
  + constructor; [|exact Hl]. cbn [existsb].
    apply Ascii.eqb_neq in Hlf, Hcr. now rewrite Hlf, Hcr.
  + destruct H as [->|[rest [-> | ->]]]; [now left | |]; right; exists rest;
      [now left | now right].
Qed.

(** X12.  Whatever the file holds, the password read from it contains
    neither a line feed nor a carriage return. *)
Theorem password_has_no_line_break
  (fs : string -> option str) (file : string) (pw : str) :
get_passwd_from_file fs file = Ok pw -> free_of [CR; LF] pw.
Proof.
intros H. destruct (fs file) as [content|] eqn:Hf;
  [|unfold get_passwd_from_file in H; rewrite Hf in H; discriminate].
destruct (first_line_exists content) as (line & Hl & Hc).
assert (E : get_passwd_from_file fs file = Ok line).
{ apply (password_is_first_line_aux fs file line content Hl Hf Hc). }
rewrite E in H. now injection H as <-.
Qed.

Lemma password_has_no_line_break_witness :
free_of [CR; LF] (lit "s3cret").
Proof.
apply (password_has_no_line_break
         (fun _ => Some (lit "s3cret" ++ CR :: LF :: CR :: lit "x")) "p" (lit "s3cret")).
reflexivity.
Defined.

(** X13.  Setting the credential twice is setting the last one: on a
    well-formed tunnel URL, [update_url_with_passwd] applied to its own
    result with a second password gives what it gives on the URL itself
    with that second password; the first credential leaves no trace. *)
Theorem update_url_twice_keeps_last
  (lib : library) (sch nl pa : str) (q f : option str) (pw1 pw2 : str) :
well_formed lib sch nl pa q f ->
exists u1,
  update_url_with_passwd lib (compose sch nl pa q f) pw1 = Ok u1 /\
  update_url_with_passwd lib u1 pw2
  = update_url_with_passwd lib (compose sch nl pa q f) pw2.
Proof.
intros Hwf. eexists. split; [exact (update_url_compose _ _ _ _ _ _ pw1 Hwf)|].
rewrite (update_url_compose _ _ _ _ _ _ pw2 (well_formed_with_passwd _ _ _ _ _ _ pw1 Hwf)).
now rewrite (update_url_compose _ _ _ _ _ _ pw2 Hwf).
Qed.

Lemma update_url_twice_keeps_last_witness :
exists u1,
  update_url_with_passwd Examples.lib (lit "wss://[::1]:8443/tunnel?room=7") (lit "one")
  = Ok u1 /\
  update_url_with_passwd Examples.lib u1 (lit "two")
  = update_url_with_passwd Examples.lib (lit "wss://[::1]:8443/tunnel?room=7") (lit "two").
Proof.
exact (update_url_twice_keeps_last
         Examples.lib (lit "wss") (lit "[::1]:8443") (lit "/tunnel")
         (Some (lit "room=7")) None (lit "one") (lit "two")
         example_ipv6_url_well_formed).
Defined.

(** X20.  [update_url_with_passwd] returns no URL for a tunnel URL whose
    netloc [urlsplit] refuses: it raises ValueError when the netloc has one
    bracket without the other, when it has both and the library does not
    accept the bracketed host, and when it is not ASCII and its NFKC normal
    form, taken without [@:#?], differs from it and contains one of
    [/?#@:]. *)
Theorem update_url_refuses_bad_netloc
  (lib : library) (sch nl pa : str) (q f : option str) (pw : str) :
(sch = lit "ws" \/ sch = lit "wss") ->
free_of (lit "/?#" ++ unsafe) nl ->
(pa = [] \/ exists p, pa = "/"%char :: p) ->
free_of (lit "?#" ++ unsafe) pa ->
(forall s, q = Some s -> free_of ("#"%char :: unsafe) s) ->
(forall s, f = Some s -> free_of unsafe s) ->
(contains "[" nl = true /\ contains "]" nl = false)
\/ (contains "]" nl = true /\ contains "[" nl = false)
\/ (contains "[" nl = true /\ contains "]" nl = true
    /\ check_bracketed_netloc lib nl = false)
\/ (is_ascii nl = false /\
    let n := List.filter (fun c => negb (existsb (Ascii.eqb c) (lit "@:#?"))) nl in
    nfkc lib n <> n /\
    exists c, In c (lit "/?#@:") /\ contains c (nfkc lib n) = true) ->
update_url_with_passwd lib (compose sch nl pa q f) pw = Raise ValueError.
Proof.
intros Hs Hn Ha Hp Hq Hf Hbad. unfold update_url_with_passwd.
rewrite (urlparse_refuses lib sch nl pa q f Hs Hn Ha Hp Hq Hf); [reflexivity|].
destruct Hbad as [[H1 H2]|[[H1 H2]|[H|(Hasc & Hne & c & Hc & Hin)]]].
- left. unfold brackets_mismatch. now rewrite H1, H2.
- left. unfold brackets_mismatch. rewrite H1, H2. now rewrite orb_true_r.
- right. now left.
- right. right. unfold checknetloc.
  destruct nl as [|x nl]; [discriminate|]. rewrite Hasc.
  set (n := List.filter _ (x :: nl)) in *.
  destruct (str_eqb n (nfkc lib n)) eqn:E.
  + apply str_eqb_eq in E. now destruct Hne.
  + apply negb_false_iff. apply existsb_exists. now exists c.
Qed.

Lemma update_url_refuses_bad_netloc_witness :
update_url_with_passwd Examples.lib (lit "wss://[::1/tunnel?room=7") (lit "pw")
  = Raise ValueError /\
update_url_with_passwd Examples.lib (lit "wss://[gw.example]:8443/tunnel") (lit "pw")
  = Raise ValueError /\
update_url_with_passwd Examples.spelling_lib
  (compose (lit "wss") Examples.host_with_account_sign (lit "/tunnel") None None) (lit "pw")
  = Raise ValueError.
Proof.
split; [|split].
- apply (update_url_refuses_bad_netloc
           Examples.lib (lit "wss") (lit "[::1") (lit "/tunnel")
           (Some (lit "room=7")) None (lit "pw")).
  + now right.
  + repeat constructor.
  + right. now exists (lit "tunnel").
  + repeat constructor.
  + intros s [= <-]. repeat constructor.
  + intros s [=].
  + left. split; reflexivity.
- apply (update_url_refuses_bad_netloc
           Examples.lib (lit "wss") (lit "[gw.example]:8443") (lit "/tunnel")
           None None (lit "pw")).
  + now right.
  + repeat constructor.
  + right. now exists (lit "tunnel").
  + repeat constructor.
  + intros s [=].
  + intros s [=].
  + right. right. left. repeat split.
- apply (update_url_refuses_bad_netloc
           Examples.spelling_lib (lit "wss") Examples.host_with_account_sign (lit "/tunnel")
           None None (lit "pw")).
  + now right.
  + repeat constructor.
  + right. now exists (lit "tunnel").
  + repeat constructor.
  + intros s [=].
  + intros s [=].
  + right. right. right. split; [reflexivity|]. split; [discriminate|].
    exists "/"%char. split; [now left | reflexivity].
Defined.

End MoreUrlFacts.

(** ** The TCP listener *)

Section TcpFacts.
Import Tcp.

Lemma run_cons_tcp ssl s e evs :
run ssl s (e :: evs) =
(fst (run ssl (fst (react ssl s e)) evs),
 snd (react ssl s e) ++ snd (run ssl (fst (react ssl s e)) evs)).
Proof. simpl. destruct (react ssl s e) as [s1 o1]; simpl. now destruct (run ssl s1 evs). Qed.

(** An open connection behaves as its session does on the corresponding
    inputs, the session's callbacks becoming calls on the transport. *)
Lemma react_as_session ssl s b t e :
base s = Some b -> transport s = Some t ->
(forall t', e <> ConnectionMade t') ->
react ssl s e =
(mkTcpServer (args s) (peername s) (Some (fst (Session.run b (as_input e)))) (transport s),
 flat_map (perform s) (snd (Session.run b (as_input e)))).
Proof.
intros Hb Ht Hne. destruct e as [t'|data| |ev]; simpl.
- now destruct (Hne t').
- unfold data_received. now rewrite Hb.
- unfold connection_lost. rewrite Hb. unfold Session.react.
  destruct (Session.abort b) as [b'|x]; [reflexivity|]. simpl.
  destruct s; simpl in *. now subst.
- rewrite Hb. unfold Session.react.
  destruct (Session.step b ev) as [[b' acts]|]; simpl.
  + rewrite app_nil_r. reflexivity.
  + destruct s; simpl in *. now subst.
Qed.

Lemma session_run_snoc b ins i :
Session.run b (ins ++ [i]) =
(fst (Session.react (fst (Session.run b ins)) i),
 snd (Session.run b ins) ++ snd (Session.react (fst (Session.run b ins)) i)).
Proof.
rewrite run_app. simpl.
destruct (Session.react (fst (Session.run b ins)) i) as [s1 a1]. simpl.
now rewrite app_nil_r.
Qed.

Lemma run_as_session ssl evs : forall s b t,
base s = Some b -> transport s = Some t ->
(forall t', ConnectionMade t' ∉ evs) ->
run ssl s evs =
(mkTcpServer (args s) (peername s)
             (Some (fst (Session.run b (flat_map as_input evs)))) (transport s),
 flat_map (perform s) (snd (Session.run b (flat_map as_input evs)))).
Proof.
induction evs as [|e evs IH]; intros s b t Hb Ht Hne.
- simpl. destruct s; simpl in *. now subst.
- rewrite run_cons_tcp.
  rewrite (react_as_session ssl s b t e Hb Ht)
    by (intros t' ->; apply (Hne t'); apply list_elem_of_here).
  cbn [fst snd].
  set (b1 := fst (Session.run b (as_input e))).
  set (s1 := mkTcpServer (args s) (peername s) (Some b1) (transport s)).
  rewrite (IH s1 b1 t eq_refl Ht)
    by (intros t' Hin; apply (Hne t'); now apply list_elem_of_further).
  subst s1 b1. cbn [args peername transport flat_map].
  rewrite run_app. cbn [fst snd]. rewrite flat_map_app. reflexivity.
Qed.

Lemma in_order_no_connection_made st evs :
st <> Fresh -> in_order st evs = true -> forall t', ConnectionMade t' ∉ evs.
Proof.
revert st; induction evs as [|e evs IH]; intros st Hst H t' Hin.
- now apply elem_of_nil in Hin.
- apply elem_of_cons in Hin as [<-|Hin].
  + simpl in H. now destruct st.
  + destruct e; simpl in H; destruct st; try discriminate; try contradiction;
      eapply (IH _ _ H t' Hin).
  Unshelve. all: discriminate.
Qed.

Ltac session_step_cases :=
unfold Session.react, Session.abort, Session.data_received, Session.step,
  Session.new_client, Session.watchdog_task, Session.ws_data_sender,
  Session.ws_data_receiver, Session.deliver_cancel, Session.finally,
  Session.reset_watchdog, Session.set_task, Session.log_exception in *;
repeat (case_match; simplify_eq /=); auto.

Lemma react_raised s i :
SessionSpec.raised (snd (Session.react s i)) =
match i with
| Session.Abort => if Session.shutdown s then [InvalidStateError] else []
| _ => []
end.
Proof. session_step_cases. Qed.

Lemma react_notifies_at_most_once s i :
(length (Session.notified (snd (Session.react s i))) <= 1)%nat.
Proof. session_step_cases; simpl; lia. Qed.

Lemma run_notifies_at_most_once ins : forall s,
(length (Session.notified (snd (Session.run s ins))) <= 1)%nat.
Proof.
induction ins as [|i ins IH]; intros s; [simpl; lia|].
rewrite run_cons. cbn [snd]. rewrite notified_app, length_app.
destruct (Session.pc (fst (Session.react s i))) eqn:Hf.
4: { rewrite (run_finished_silent _ ins Hf). simpl.
     pose proof (react_notifies_at_most_once s i). lia. }
all: rewrite (react_unfinished_silent s i) by (rewrite Hf; discriminate);
  simpl; apply IH.
Qed.

(** The session's actions as calls on an open transport. *)
Lemma perform_open s t acts :
transport s = Some t ->
uncaught (flat_map (perform s) acts) = List.map SessionError (SessionSpec.raised acts) /\
tunnel_sends (flat_map (perform s) acts) = Session.sent acts /\
closes (flat_map (perform s) acts) = length (Session.notified acts) /\
writes (flat_map (perform s) acts) = List.map fst (Session.delivered acts).
Proof.
intros Ht. induction acts as [|a acts (H1 & H2 & H3 & H4)]; [now repeat split|].
unfold uncaught, tunnel_sends, closes, writes in *. cbn [flat_map].
rewrite !omap_app, List.filter_app, length_app, H1, H2, H3, H4.
destruct a; unfold perform, write_to_transport, upstream_lost; rewrite ?Ht;
  now repeat split.
Qed.

Lemma received_as_input evs :
Session.received (flat_map as_input evs) = local_data evs.
Proof.
induction evs as [|e evs IH]; [reflexivity|].
cbn [flat_map]. unfold Session.received, local_data in *.
rewrite omap_app, IH. now destruct e.
Qed.

Lemma tunnel_messages_as_input evs :
SessionSpec.tunnel_messages (flat_map as_input evs) = tunnel_data evs.
Proof.
induction evs as [|e evs IH]; [reflexivity|].
cbn [flat_map]. unfold SessionSpec.tunnel_messages, tunnel_data in *.
rewrite omap_app, IH. destruct e as [| | |[]]; reflexivity.
Qed.

Lemma run_single b i :
Session.run b [i] = (fst (Session.react b i), snd (Session.react b i)).
Proof. simpl. destruct (Session.react b i). simpl. now rewrite app_nil_r. Qed.

Lemma raised_app a b :
SessionSpec.raised (a ++ b) = SessionSpec.raised a ++ SessionSpec.raised b.
Proof. apply omap_app. Qed.

(** In the order asyncio keeps, [abort] meets an unset signal. *)
Lemma in_order_never_raises evs : forall st b,
st <> Fresh -> in_order st evs = true ->
(st = Open -> Session.shutdown b = false) ->
SessionSpec.raised (snd (Session.run b (flat_map as_input evs))) = [].
Proof.
induction evs as [|e evs IH]; intros st b Hst Ho Hsh; [reflexivity|].
cbn [flat_map]. rewrite run_app. cbn [snd]. rewrite raised_app.
destruct e as [t|d| |ev]; simpl in Ho; destruct st; try discriminate;
  try contradiction; cbn [as_input]; rewrite run_single; cbn [fst snd];
  rewrite react_raised.
- apply (IH Open); [discriminate | exact Ho | intros _].
  rewrite react_shutdown_only_abort; [now apply Hsh | discriminate].
- rewrite (Hsh eq_refl). apply (IH Lost); [discriminate | exact Ho | discriminate].
- apply (IH Open); [discriminate | exact Ho | intros _].
  rewrite react_shutdown_only_abort; [now apply Hsh | discriminate].
- apply (IH Lost); [discriminate | exact Ho | discriminate].
Qed.

Lemma run_writes_sublist ins : forall b,
List.map fst (Session.delivered (snd (Session.run b ins)))
  `sublist_of` SessionSpec.tunnel_messages ins.
Proof.
induction ins as [|i ins IH]; intros b; [constructor|].
rewrite run_cons, tunnel_messages_cons. cbn [snd].
rewrite delivered_app, map_app. apply sublist_app; [|apply IH].
apply react_delivers.
Qed.

(** The listener after a [connection_made] that constructed the
    session, and its run from there. *)
Lemma run_after_connection_made ssl uri certfile client_cert idle_timeout t b0 evs :
Session.construct ssl (peer_of t) uri certfile client_cert idle_timeout = Ok b0 ->
in_order Open evs = true ->
let r := Session.run b0 (flat_map as_input evs) in
let s1 := mkTcpServer (args (__init__ uri certfile client_cert idle_timeout))
                      (Some (peer_of t)) (Some b0) (Some t) in
run ssl (__init__ uri certfile client_cert idle_timeout) (ConnectionMade t :: evs)
= (mkTcpServer (args s1) (peername s1) (Some (fst r)) (Some t),
   flat_map (perform s1) (snd r)).
Proof.
intros Hb0 Ho r s1. rewrite run_cons_tcp.
assert (E : react ssl (__init__ uri certfile client_cert idle_timeout) (ConnectionMade t)
            = (s1, [])).
{ unfold react, connection_made. cbn [args __init__ Udp.arg_uri Udp.arg_certfile
    Udp.arg_client_cert Udp.arg_idle_timeout]. now rewrite Hb0. }
rewrite E. cbn [fst snd app].
rewrite (run_as_session ssl evs s1 b0 t); try reflexivity.
apply (in_order_no_connection_made Open); [discriminate | exact Ho].
Qed.

(** Without a session, every callback of the protocol raises, and nothing
    else happens. *)
Lemma run_without_session ssl evs : forall st s,
st <> Fresh -> in_order st evs = true -> base s = None ->
run ssl s evs
= (s, List.map (fun _ => Uncaught AttributeError) (List.filter is_callback evs)).
Proof.
induction evs as [|e evs IH]; intros st s Hst Ho Hb; [reflexivity|].
rewrite run_cons_tcp.
destruct e as [t|d| |ev]; simpl in Ho; destruct st; try discriminate;
  try contradiction; cbn [react List.filter is_callback List.map];
  unfold data_received, connection_lost; rewrite Hb; cbn [fst snd app].
- now rewrite (IH Open s).
- now rewrite (IH Lost s).
- now rewrite (IH Open s).
- now rewrite (IH Lost s).
Qed.

(** The listener after a [connection_made] whose constructor raised. *)
Lemma run_after_failed_construction ssl uri certfile client_cert idle_timeout t e evs :
Session.construct ssl (peer_of t) uri certfile client_cert idle_timeout = Raise e ->
in_order Open evs = true ->
run ssl (__init__ uri certfile client_cert idle_timeout) (ConnectionMade t :: evs)
= (mkTcpServer (args (__init__ uri certfile client_cert idle_timeout))
               (Some (peer_of t)) None (Some t),
   Uncaught (SessionError e)
     :: List.map (fun _ => Uncaught AttributeError) (List.filter is_callback evs)).
Proof.
intros Hb0 Ho. rewrite run_cons_tcp.
assert (E : react ssl (__init__ uri certfile client_cert idle_timeout) (ConnectionMade t)
            = (mkTcpServer (args (__init__ uri certfile client_cert idle_timeout))
                           (Some (peer_of t)) None (Some t),
               [Uncaught (SessionError e)])).
{ unfold react, connection_made. cbn [args __init__ Udp.arg_uri Udp.arg_certfile
    Udp.arg_client_cert Udp.arg_idle_timeout base]. now rewrite Hb0. }
rewrite E. cbn [fst snd app].
now rewrite (run_without_session ssl evs Open) by (auto; discriminate).
Qed.

Lemma uncaught_map_uncaught (l : list event) :
uncaught (List.map (fun _ => Uncaught AttributeError) l)
= repeat AttributeError (length l).
Proof. induction l as [|x l IH]; [reflexivity|]. simpl. now rewrite <- IH. Qed.

(** X14.  asyncio calls a protocol in order: connection_made once and
    first, then data_received, then connection_lost once and last; the
    session's coroutines are resumed at any time after connection_made, and
    the tunnel delivers binary and text frames.  When the constructor of the
    session returns, no callback of the TCP listener raises: the session and
    the transport are there when they are used, and [abort] is called on an
    unset shutdown signal.  When the constructor raises, its exception
    leaves connection_made, and every later data_received and
    connection_lost raises AttributeError on the missing session. *)
Theorem tcp_callbacks_raise_only_without_session
  (ssl : Session.ssl_module)
  (uri : string) (certfile client_cert : option string) (idle_timeout : Z)
  (t : transport_t) (evs : list event) :
in_order Open evs = true ->
uncaught (snd (run ssl (__init__ uri certfile client_cert idle_timeout)
                   (ConnectionMade t :: evs)))
= match Session.construct ssl (peer_of t) uri certfile client_cert idle_timeout with
  | Ok _ => []
  | Raise e =>
      SessionError e
        :: repeat AttributeError (length (List.filter is_callback evs))
  end.
Proof.
intros Ho.
destruct (Session.construct ssl (peer_of t) uri certfile client_cert idle_timeout)
  as [b0|e] eqn:Hb0.
- rewrite (run_after_connection_made _ _ _ _ _ t b0 evs Hb0 Ho). cbn [snd].
  rewrite (proj1 (perform_open
          (mkTcpServer (args (__init__ uri certfile client_cert idle_timeout))
                       (Some (peer_of t)) (Some b0) (Some t)) t _ eq_refl)).
  assert (Hr : SessionSpec.raised (snd (Session.run b0 (flat_map as_input evs))) = []).
  { apply (in_order_never_raises evs Open); [discriminate | exact Ho |].
    intros _. apply construct_returns in Hb0. now subst b0. }
  now rewrite Hr.
- rewrite (run_after_failed_construction _ _ _ _ _ t e evs Hb0 Ho). cbn [snd].
  now rewrite <- uncaught_map_uncaught.
Qed.

Lemma tcp_callbacks_raise_only_without_session_witness :
uncaught (snd (run Examples.ssl
                   (__init__ "wss://gw.example/t" (Some "ca.pem"%string) None 120)
                   [ConnectionMade {| peer_of := ("192.0.2.7"%string, 40000) |};
                    DataReceived [Byte.x01];
                    SessionEvent Session.Connected;
                    SessionEvent (Session.ReceivedText "hello");
                    SessionEvent (Session.WaitReturns (Session.RTask Session.AReceiver));
                    SessionEvent Session.Closed;
                    ConnectionLost])) = [] /\
uncaught (snd (run Examples.ssl
                   (__init__ "wss://gw.example/t" (Some "missing.pem"%string) None 120)
                   [ConnectionMade {| peer_of := ("192.0.2.7"%string, 40000) |};
                    DataReceived [Byte.x01];
                    ConnectionLost]))
= [SessionError FileNotFoundError; AttributeError; AttributeError].
Proof.
split.
- apply (tcp_callbacks_raise_only_without_session
           Examples.ssl "wss://gw.example/t" (Some "ca.pem"%string) None 120
           {| peer_of := ("192.0.2.7"%string, 40000) |}
           [DataReceived [Byte.x01];
            SessionEvent Session.Connected;
            SessionEvent (Session.ReceivedText "hello");
            SessionEvent (Session.WaitReturns (Session.RTask Session.AReceiver));
            SessionEvent Session.Closed;
            ConnectionLost]).
  reflexivity.
- apply (tcp_callbacks_raise_only_without_session
           Examples.ssl "wss://gw.example/t" (Some "missing.pem"%string) None 120
           {| peer_of := ("192.0.2.7"%string, 40000) |}
           [DataReceived [Byte.x01]; ConnectionLost]).
  reflexivity.
Defined.

(** X15.  On a TCP connection whose session was constructed, the chunks
    handed to [data_received] are exactly what the session has sent into
    the tunnel followed by what it still holds in its queue, chunk by chunk
    and in order; so the bytes sent and queued, put end to end, are the
    bytes received from the local peer.  Without a session nothing is sent
    into the tunnel. *)
Theorem tcp_stream_reaches_tunnel_in_order
  (ssl : Session.ssl_module)
  (uri : string) (certfile client_cert : option string) (idle_timeout : Z)
  (t : transport_t) (evs : list event) :
in_order Open evs = true ->
match Session.construct ssl (peer_of t) uri certfile client_cert idle_timeout with
| Ok _ =>
    exists b,
      base (fst (run ssl (__init__ uri certfile client_cert idle_timeout)
                     (ConnectionMade t :: evs))) = Some b /\
      tunnel_sends (snd (run ssl (__init__ uri certfile client_cert idle_timeout)
                             (ConnectionMade t :: evs)))
        ++ Session.que b = local_data evs /\
      concat (tunnel_sends (snd (run ssl (__init__ uri certfile client_cert idle_timeout)
                                     (ConnectionMade t :: evs))))
        ++ concat (Session.que b) = concat (local_data evs)
| Raise _ =>
    base (fst (run ssl (__init__ uri certfile client_cert idle_timeout)
                   (ConnectionMade t :: evs))) = None /\
    tunnel_sends (snd (run ssl (__init__ uri certfile client_cert idle_timeout)
                           (ConnectionMade t :: evs))) = []
end.
Proof.
intros Ho.
destruct (Session.construct ssl (peer_of t) uri certfile client_cert idle_timeout)
  as [b0|e] eqn:Hb0.
- rewrite (run_after_connection_made _ _ _ _ _ t b0 evs Hb0 Ho). cbn [fst snd base].
  eexists. split; [reflexivity|].
  rewrite (proj1 (proj2 (perform_open
          (mkTcpServer (args (__init__ uri certfile client_cert idle_timeout))
                       (Some (peer_of t)) (Some b0) (Some t)) t _ eq_refl))).
  assert (H : Session.sent (snd (Session.run b0 (flat_map as_input evs)))
              ++ Session.que (fst (Session.run b0 (flat_map as_input evs)))
              = local_data evs).
  { rewrite run_fifo. rewrite received_as_input.
    apply construct_returns in Hb0. now subst b0. }
  split; [exact H|]. now rewrite <- concat_app, H.
- rewrite (run_after_failed_construction _ _ _ _ _ t e evs Hb0 Ho). cbn [fst snd base].
  split; [reflexivity|]. unfold tunnel_sends. cbn [omap].
  induction (List.filter is_callback evs) as [|x l IH]; [reflexivity | exact IH].
Qed.

Lemma tcp_stream_reaches_tunnel_in_order_witness :
exists b,
  base (fst (run Examples.ssl
                 (__init__ "wss://gw.example/t" (Some "ca.pem"%string) None 120)
                 (ConnectionMade {| peer_of := ("192.0.2.7"%string, 40000) |}
                    :: [DataReceived [Byte.x01; Byte.x02];
                        SessionEvent Session.Connected;
                        SessionEvent Session.SenderGet;
                        DataReceived [Byte.x03]]))) = Some b /\
  tunnel_sends (snd (run Examples.ssl
                         (__init__ "wss://gw.example/t" (Some "ca.pem"%string) None 120)
                         (ConnectionMade {| peer_of := ("192.0.2.7"%string, 40000) |}
                            :: [DataReceived [Byte.x01; Byte.x02];
                                SessionEvent Session.Connected;
                                SessionEvent Session.SenderGet;
                                DataReceived [Byte.x03]])))
    ++ Session.que b = [[Byte.x01; Byte.x02]; [Byte.x03]].
Proof.
destruct (tcp_stream_reaches_tunnel_in_order
            Examples.ssl "wss://gw.example/t" (Some "ca.pem"%string) None 120
            {| peer_of := ("192.0.2.7"%string, 40000) |}
            [DataReceived [Byte.x01; Byte.x02];
             SessionEvent Session.Connected;
             SessionEvent Session.SenderGet;
             DataReceived [Byte.x03]] eq_refl) as (b & H1 & H2 & _).
exists b. split; [exact H1 | exact H2].
Defined.

(** X16.  On a TCP connection the listener closes the transport at most
    once, and what it writes to the transport are messages received from the
    tunnel, each at most once and in the order of their arrival. *)
Theorem tcp_transport_closed_at_most_once
  (ssl : Session.ssl_module)
  (uri : string) (certfile client_cert : option string) (idle_timeout : Z)
  (t : transport_t) (evs : list event) :
in_order Open evs = true ->
(closes (snd (run ssl (__init__ uri certfile client_cert idle_timeout)
                  (ConnectionMade t :: evs))) <= 1)%nat /\
writes (snd (run ssl (__init__ uri certfile client_cert idle_timeout)
                 (ConnectionMade t :: evs)))
  `sublist_of` tunnel_data evs.
Proof.
intros Ho.
destruct (Session.construct ssl (peer_of t) uri certfile client_cert idle_timeout)
  as [b0|e] eqn:Hb0.
- rewrite (run_after_connection_made _ _ _ _ _ t b0 evs Hb0 Ho). cbn [snd].
  destruct (perform_open
              (mkTcpServer (args (__init__ uri certfile client_cert idle_timeout))
                           (Some (peer_of t)) (Some b0) (Some t)) t
              (snd (Session.run b0 (flat_map as_input evs))) eq_refl)
    as (_ & _ & H3 & H4).
  rewrite H3, H4. split.
  + apply run_notifies_at_most_once.
  + rewrite <- tunnel_messages_as_input. apply run_writes_sublist.
- rewrite (run_after_failed_construction _ _ _ _ _ t e evs Hb0 Ho). cbn [snd].
  assert (E : forall l : list event,
             closes (Uncaught (SessionError e)
                       :: List.map (fun _ => Uncaught AttributeError) l) = 0%nat /\
             writes (Uncaught (SessionError e)
                       :: List.map (fun _ => Uncaught AttributeError) l) = []).
  { induction l as [|x l [IH1 IH2]]; split; [reflexivity | reflexivity | exact IH1 | exact IH2]. }
  destruct (E (List.filter is_callback evs)) as [E1 E2].
  rewrite E1, E2. split; [lia | apply sublist_nil_l].
Qed.

Lemma tcp_transport_closed_at_most_once_witness :
(closes (snd (run Examples.ssl (__init__ "ws://gw.example/t" None None 120%Z)
                  (ConnectionMade {| peer_of := ("192.0.2.7"%string, 40000%Z) |}
                     :: [SessionEvent (Session.ConnectFailed (TunnelError "refused"));
                         ConnectionLost]))) <= 1)%nat.
Proof.
apply (tcp_transport_closed_at_most_once
         Examples.ssl "ws://gw.example/t" None None 120%Z
         {| peer_of := ("192.0.2.7"%string, 40000%Z) |}
         [SessionEvent (Session.ConnectFailed (TunnelError "refused")); ConnectionLost]).
reflexivity.
Defined.

End TcpFacts.

(** ** main *)

Section MainFacts.
Import Url Main.

Lemma is_prefix_app sep b : is_prefix sep (sep ++ b) = true.
Proof. induction sep as [|c sep IH]; simpl; [reflexivity|]. now rewrite Ascii.eqb_refl. Qed.

Lemma skipn_sep (sep b : str) : skipn (length sep) (sep ++ b) = b.
Proof. induction sep as [|c sep IH]; simpl; auto. Qed.

Lemma split1_cons sep c s :
split1 sep (c :: s) =
if is_prefix sep (c :: s) then ([], Some (skipn (length sep) (c :: s)))
else let (a, b) := split1 sep s in (c :: a, b).
Proof. reflexivity. Qed.

Lemma is_prefix_other c sep d s : Ascii.eqb d c = false -> is_prefix (c :: sep) (d :: s) = false.
Proof. intros H. cbn [is_prefix]. now rewrite Ascii.eqb_sym, H. Qed.

(** A separator does not occur in a text that lacks its first character. *)
Lemma split1_none c sep s :
free_of [c] s -> split1 (c :: sep) s = (s, None).
Proof.
induction 1 as [|d s Hd _ IH]; [reflexivity|].
cbn [existsb] in Hd. apply orb_false_elim in Hd as [Hd _].
now rewrite split1_cons, is_prefix_other, IH.
Qed.

Lemma split1_first c sep a b :
free_of [c] a -> split1 (c :: sep) (a ++ (c :: sep) ++ b) = (a, Some b).
Proof.
induction 1 as [|d a Hd _ IH].
- change ([] ++ (c :: sep) ++ b) with (c :: (sep ++ b)). rewrite split1_cons.
  change (c :: sep ++ b) with ((c :: sep) ++ b).
  now rewrite is_prefix_app, skipn_sep.
- cbn [existsb] in Hd. apply orb_false_elim in Hd as [Hd _].
  change ((d :: a) ++ (c :: sep) ++ b) with (d :: (a ++ (c :: sep) ++ b)).
  now rewrite split1_cons, is_prefix_other, IH.
Qed.

(** X17.  A listen address [proto://host:rest], with no colon in [proto]
    and [host], is read as protocol [proto], host [host] and port
    [int(rest)]: the host ends at the first colon after [://].  The listener
    is the UDP one exactly when [proto] is [udp]; every other protocol name,
    known or not, gets the TCP listener.  Without a password file the tunnel
    URL is passed on as given, with a warning unless it starts with
    [wss://]. *)
Theorem main_reads_listen_address
  (lib : library) (int : str -> option Z) (fs : string -> option str)
  (proto host rest uri : str) (passwd_file certfile client_cert : option string)
  (idle_timeout p : Z) :
free_of [":"%char] proto -> free_of [":"%char] host -> int rest = Some p ->
(forall pl,
    main lib int fs (proto ++ lit "://" ++ host ++ lit ":" ++ rest) uri
         passwd_file certfile client_cert idle_timeout = Done pl ->
    local_addr pl = (host, p) /\
    (listener pl = UdpListener <-> proto = lit "udp") /\
    (listener pl = TcpListener <-> proto <> lit "udp")) /\
main lib int fs (proto ++ lit "://" ++ host ++ lit ":" ++ rest) uri
     None certfile client_cert idle_timeout
= Done {| listener := if str_eqb proto (lit "udp") then UdpListener else TcpListener;
          local_addr := (host, p);
          listener_args := {| Udp.arg_uri := string_of_list_ascii uri;
                              Udp.arg_certfile := certfile;
                              Udp.arg_client_cert := client_cert;
                              Udp.arg_idle_timeout := idle_timeout |};
          warned := negb (is_prefix (lit "wss://") uri) |}.
Proof.
intros Hp Hh Hi.
assert (E1 : split1 (lit "://") (proto ++ lit "://" ++ host ++ lit ":" ++ rest)
             = (proto, Some (host ++ lit ":" ++ rest)))
  by (apply (split1_first ":" (lit "//")); exact Hp).
assert (E2 : split1 (lit ":") (host ++ lit ":" ++ rest) = (host, Some rest))
  by (apply (split1_first ":" [] host rest); exact Hh).
assert (Hk : forall k, (if str_eqb proto (lit "udp") then UdpListener else TcpListener) = k ->
             (k = UdpListener <-> proto = lit "udp") /\
             (k = TcpListener <-> proto <> lit "udp")).
{ intros k <-. destruct (str_eqb proto (lit "udp")) eqn:E.
  - apply str_eqb_eq in E. split; split; auto; try discriminate. intros H; contradiction.
  - assert (proto <> lit "udp") by (intros H; apply str_eqb_eq in H; congruence).
    split; split; auto; try discriminate. intros H'; contradiction. }
split.
- intros pl. unfold main. rewrite E1, E2, Hi.
  destruct (truthy passwd_file).
  + destruct (get_passwd_from_file fs (default ""%string passwd_file)) as [pw|e];
      [|discriminate].
    destruct (update_url_with_passwd lib uri pw) as [u|e]; [|discriminate].
    intros [= <-]. cbn [local_addr listener]. split; [reflexivity|]. now apply Hk.
  + intros [= <-]. cbn [local_addr listener]. split; [reflexivity|]. now apply Hk.
- unfold main. now rewrite E1, E2, Hi.
Qed.

Lemma main_reads_listen_address_witness :
main Examples.lib (fun s => if str_eqb s (lit "5353") then Some 5353 else None) (fun _ => None)
     (lit "quic" ++ lit "://" ++ lit "127.0.0.1" ++ lit ":" ++ lit "5353")
     (lit "ws://gw.example/t") None None None 120
= Done {| listener := TcpListener;
          local_addr := (lit "127.0.0.1", 5353);
          listener_args := {| Udp.arg_uri := "ws://gw.example/t";
                              Udp.arg_certfile := None;
                              Udp.arg_client_cert := None;
                              Udp.arg_idle_timeout := 120 |};
          warned := true |}.
Proof.
apply (proj2 (main_reads_listen_address
                Examples.lib
                (fun s => if str_eqb s (lit "5353") then Some 5353 else None)
                (fun _ => None)
                (lit "quic") (lit "127.0.0.1") (lit "5353") (lit "ws://gw.example/t")
                None None None 120 5353
                ltac:(repeat constructor) ltac:(repeat constructor) eq_refl)).
Defined.

(** A separator that does not occur splits nothing off. *)
Lemma split1_absent sep s : occurs sep s = false -> split1 sep s = (s, None).
Proof.
induction s as [|c s IH]; [reflexivity|].
cbn [occurs]. intros H. apply orb_false_elim in H as [H1 H2].
now rewrite split1_cons, H1, IH.
Qed.

Lemma is_prefix_long sep : forall x y,
(length sep <= length x)%nat -> is_prefix sep (x ++ y) = is_prefix sep x.
Proof.
induction sep as [|c sep IH]; intros x y Hl; [reflexivity|].
destruct x as [|d x]; [simpl in Hl; lia|].
cbn [app is_prefix]. rewrite IH; [reflexivity|]. simpl in Hl. lia.
Qed.

(** The text before the first occurrence of a separator, and the text
    after it: [r] is the separator without its last character. *)
Lemma split1_at_first r l a b :
occurs (r ++ [l]) (a ++ r) = false ->
split1 (r ++ [l]) (a ++ (r ++ [l]) ++ b) = (a, Some b).
Proof.
induction a as [|d a IH]; intros H.
- cbn [app]. destruct (r ++ [l]) as [|c sep] eqn:E; [now destruct r|].
  change ((c :: sep) ++ b) with (c :: (sep ++ b)). rewrite split1_cons.
  change (c :: sep ++ b) with ((c :: sep) ++ b).
  now rewrite is_prefix_app, skipn_sep.
- change ((d :: a) ++ r) with (d :: (a ++ r)) in H.
  cbn [occurs] in H. apply orb_false_elim in H as [H1 H2].
  change ((d :: a) ++ (r ++ [l]) ++ b) with (d :: (a ++ (r ++ [l]) ++ b)).
  rewrite split1_cons, (IH H2).
  assert (E : is_prefix (r ++ [l]) (d :: a ++ (r ++ [l]) ++ b) = false).
  { rewrite <- H1.
    replace (d :: a ++ (r ++ [l]) ++ b) with ((d :: a ++ r) ++ ([l] ++ b)).
    - apply is_prefix_long. simpl length. rewrite !length_app. simpl. lia.
    - cbn [app]. f_equal. now rewrite <- !app_assoc. }
  now rewrite E.
Qed.

Lemma occurs_char c s : occurs [c] s = false <-> free_of [c] s.
Proof.
induction s as [|d s IH]; [split; [constructor | reflexivity]|].
cbn [occurs is_prefix]. rewrite andb_true_r. split.
- intros H. apply orb_false_elim in H as [H1 H2]. constructor; [|now apply IH].
  cbn [existsb]. now rewrite Ascii.eqb_sym, H1.
- intros H. apply Forall_cons in H as [H1 H2]. cbn [existsb] in H1.
  apply orb_false_elim in H1 as [H1 _]. rewrite Ascii.eqb_sym, H1. now apply IH.
Qed.

(** X18.  A listen address is rejected before anything else is looked at,
    the password file included.  When [://] does not occur in it, [main]
    raises ValueError.  When it does, and no colon follows its first
    occurrence, [main] raises IndexError.  When a colon follows, and [int]
    refuses what comes after the first such colon, [main] raises
    ValueError. *)
Theorem main_rejects_malformed_listen_address
  (lib : library) (int : str -> option Z) (fs : string -> option str)
  (uri : str) (passwd_file certfile client_cert : option string) (idle_timeout : Z) :
(forall listen, occurs (lit "://") listen = false ->
    main lib int fs listen uri passwd_file certfile client_cert idle_timeout
    = Fails (Exn ValueError)) /\
(forall proto rest,
    occurs (lit "://") (proto ++ lit ":/") = false -> free_of [":"%char] rest ->
    main lib int fs (proto ++ lit "://" ++ rest) uri passwd_file certfile client_cert
         idle_timeout
    = Fails IndexError) /\
(forall proto host rest,
    occurs (lit "://") (proto ++ lit ":/") = false -> free_of [":"%char] host ->
    int rest = None ->
    main lib int fs (proto ++ lit "://" ++ host ++ lit ":" ++ rest) uri passwd_file
         certfile client_cert idle_timeout
    = Fails (Exn ValueError)).
Proof.
split; [|split].
- intros listen H. unfold main. now rewrite (split1_absent _ _ H).
- intros proto rest Hp Hr. unfold main.
  change (lit "://") with (lit ":/" ++ ["/"%char]) in *.
  rewrite (split1_at_first (lit ":/") "/" proto rest Hp).
  change (lit ":") with [":"%char].
  now rewrite (split1_none ":" [] rest Hr).
- intros proto host rest Hp Hh Hi. unfold main.
  change (lit "://") with (lit ":/" ++ ["/"%char]) in *. change (lit ":") with [":"%char].
  rewrite (split1_at_first (lit ":/") "/" proto (host ++ [":"%char] ++ rest) Hp).
  rewrite (split1_first ":" [] host rest Hh). now rewrite Hi.
Qed.

Lemma main_rejects_malformed_listen_address_witness :
main Examples.lib (fun _ => None) (fun _ => None) (lit "localhost:8080")
     (lit "ws://gw.example/t") (Some "missing.txt"%string) None None 120
= Fails (Exn ValueError) /\
main Examples.lib (fun _ => None) (fun _ => None) (lit "tcp" ++ lit "://" ++ lit "localhost")
     (lit "ws://gw.example/t") (Some "missing.txt"%string) None None 120
= Fails IndexError /\
main Examples.lib (fun _ => None) (fun _ => None)
     (lit "tcp" ++ lit "://" ++ lit "localhost" ++ lit ":" ++ lit "http")
     (lit "ws://gw.example/t") (Some "missing.txt"%string) None None 120
= Fails (Exn ValueError).
Proof.
destruct (main_rejects_malformed_listen_address
            Examples.lib (fun _ => None) (fun _ => None) (lit "ws://gw.example/t")
            (Some "missing.txt"%string) None None 120) as (H1 & H2 & H3).
split; [|split].
- apply (H1 (lit "localhost:8080")). reflexivity.
- apply (H2 (lit "tcp") (lit "localhost")); [reflexivity|].
  repeat constructor.
- apply (H3 (lit "tcp") (lit "localhost") (lit "http")); [reflexivity| |reflexivity].
  repeat constructor.
Defined.

End MainFacts.
